(** * MidiSource (libs/ardour/midi_source.cc): a shallow embedding

    The per-parameter metadata store, the deserializer [set_state], the
    streamed write [midi_write], the modeled read [midi_read] and the clone
    [write_to] of [ARDOUR::MidiSource], as functions on an explicit source
    state, with the properties of the specification stated about them. *)

From Stdlib Require Import ZArith.
From Stdlib.Strings Require Import Byte.
From stdpp Require Import gmap strings list sorting.

Open Scope Z_scope.

(** ** Parameters, interpolation styles and automation states *)

(** Modelled from the spec: the [AutomationType] enum (ardour/types.h) is not
    part of the sources.  The six MIDI kinds are the labels of the type switch
    of [MidiSource::set_state]; every other enumerator (the [default:] label
    of that switch) is [OtherAutomation] with its numeric code. *)
Inductive AutomationType :=
| MidiCCAutomation
| MidiPgmChangeAutomation
| MidiPitchBenderAutomation
| MidiChannelPressureAutomation
| MidiNotePressureAutomation
| MidiSystemExclusiveAutomation
| OtherAutomation (code : N).

Definition AutomationType_code (t : AutomationType) : nat + N :=
  match t with
  | MidiCCAutomation => inl 0%nat
  | MidiPgmChangeAutomation => inl 1%nat
  | MidiPitchBenderAutomation => inl 2%nat
  | MidiChannelPressureAutomation => inl 3%nat
  | MidiNotePressureAutomation => inl 4%nat
  | MidiSystemExclusiveAutomation => inl 5%nat
  | OtherAutomation c => inr c
  end.

Definition AutomationType_of_code (n : nat + N) : AutomationType :=
  match n with
  | inl 0%nat => MidiCCAutomation
  | inl 1%nat => MidiPgmChangeAutomation
  | inl 2%nat => MidiPitchBenderAutomation
  | inl 3%nat => MidiChannelPressureAutomation
  | inl 4%nat => MidiNotePressureAutomation
  | inl _ => MidiSystemExclusiveAutomation
  | inr c => OtherAutomation c
  end.

#[global] Instance AutomationType_eq_dec : EqDecision AutomationType.
Proof. solve_decision. Defined.

#[global] Instance AutomationType_countable : Countable AutomationType :=
  inj_countable' AutomationType_code AutomationType_of_code
                 (fun t => match t with
                           | OtherAutomation _ => eq_refl
                           | _ => eq_refl
                           end).

(** [Evoral::Parameter]: an automation target, identified by its type, its
    channel and its id. *)
Record Evoral_Parameter := mkParameter {
  ptype : AutomationType;
  pchannel : N;
  pid : N
}.

#[global] Instance Evoral_Parameter_eq_dec : EqDecision Evoral_Parameter.
Proof. solve_decision. Defined.

#[global] Instance Evoral_Parameter_countable : Countable Evoral_Parameter :=
  inj_countable' (fun p => (ptype p, pchannel p, pid p))
                 (fun t => mkParameter t.1.1 t.1.2 t.2)
                 (fun p => match p with mkParameter _ _ _ => eq_refl end).

(** Modelled from the spec: the [InterpolationStyle] enum (evoral/ControlList.h)
    is not part of the sources; the data model of the specification gives an
    interpolation style as Discrete or Linear. *)
Inductive InterpolationStyle := Discrete | Linear.

#[global] Instance InterpolationStyle_eq_dec : EqDecision InterpolationStyle.
Proof. solve_decision. Defined.

(** Modelled from the spec: the [AutoState] enum (ardour/types.h) is not part
    of the sources; the specification names Play and Off and leaves the other
    states open, which are [OtherAutoState] with their numeric code. *)
Inductive AutoState := Off | Play | OtherAutoState (code : N).

#[global] Instance AutoState_eq_dec : EqDecision AutoState.
Proof. solve_decision. Defined.

(** The external type registry [EventTypeMap::instance()]: symbol resolution
    and the per-parameter-type default interpolation style.  Its code is
    outside this file, so the source is verified against any registry. *)
Class EventTypeMap := {
  from_symbol : string -> Evoral_Parameter;
  to_symbol : Evoral_Parameter -> string;
  EventTypeMap_interpolation_of : Evoral_Parameter -> InterpolationStyle
}.

(** The string conversions behind [XMLNode::get_property] for the two enums
    (pbd/enum_convert.h); [None] is a value that cannot be read. *)
Class EnumConvert := {
  string_to_InterpolationStyle : string -> option InterpolationStyle;
  string_to_AutoState : string -> option AutoState
}.

(** ** Time, events, the model and the cursor *)

(** Modelled from the spec: the Temporal types ([timepos_t], [timecnt_t],
    [Beats]) are not part of the sources.  A position and a beat time are
    integers on one timeline, compared as integers; a duration carries its
    time domain, which selects the "unbounded" sentinel; every conversion that
    needs the tempo map is an operation of the class [Temporal]. *)
Definition Beats := Z.
Definition samplepos_t := Z.
Definition samplecnt_t := Z.
Definition timepos_t := Z.

Inductive TimeDomain := AudioTime | BeatTime.

#[global] Instance TimeDomain_eq_dec : EqDecision TimeDomain.
Proof. solve_decision. Defined.

Record timecnt_t := mkCnt {
  time_domain : TimeDomain;
  distance : Z
}.

#[global] Instance timecnt_t_eq_dec : EqDecision timecnt_t.
Proof. solve_decision. Defined.

(** [Temporal::Range], the loop range handed to [midi_read]. *)
Definition Range := (timepos_t * timepos_t)%type.

Class Temporal := {
  (** [timecnt_t::max (td)] *)
  timecnt_max : TimeDomain -> timecnt_t;
  (** [std::numeric_limits<Temporal::Beats>::max ()] *)
  Beats_max : Beats;
  (** [cnt.samples ()] and [cnt.beats ()] *)
  timecnt_samples : timecnt_t -> samplecnt_t;
  timecnt_beats : timecnt_t -> Beats;
  (** [pos.beats ()] *)
  timepos_beats : timepos_t -> Beats;
  (** [timepos_t (beats).samples ()] *)
  Beats_samples : Beats -> samplepos_t;
  (** [source_start + start] and [start + cnt] *)
  timepos_plus : timepos_t -> timepos_t -> timepos_t;
  timepos_add : timepos_t -> timecnt_t -> timepos_t;
  (** [loop_range->squish (timepos_t (beats)).samples ()] *)
  squish_samples : Range -> Beats -> samplepos_t;
  (** [timecnt_t (timecnt_t (timepos_t (len), pos).beats (), pos)] *)
  length_in_beats : samplecnt_t -> timepos_t -> timecnt_t
}.

(** [samplecnt_t] is a signed 64-bit integer: the value an addition leaves
    in it, on two's complement hardware. *)
Definition wrap_s64 (z : Z) : Z := (z + 2 ^ 63) mod 2 ^ 64 - 2 ^ 63.

Definition in_s64 (z : Z) : Prop := - 2 ^ 63 <= z < 2 ^ 63.

(** A MIDI event of the model: its beat time, its event type and its bytes
    ([buffer ()], of [size ()] bytes). *)
Record Event := mkEvent {
  time : Beats;
  event_type : Z;
  buffer : list byte
}.

Definition size (ev : Event) : nat := length (buffer ev).

(** One call of [Evoral::EventSink::write (time, type, size, buf)]. *)
Record SinkWrite := mkSinkWrite {
  sw_time : samplepos_t;
  sw_type : Z;
  sw_size : nat;
  sw_buf : list byte
}.

(** [Evoral::Sequence<Beats>::const_iterator]: whether it is valid, and the
    events it has still to yield; it equals [end ()] when none is left. *)
Record const_iterator := mkIter {
  valid : bool;
  pending : list Event
}.

(** A sounding note, by its id. *)
Definition Note := N.

(** [MidiCursor]: the read state a caller owns and hands to [midi_read]. *)
Record MidiCursor := mkCursor {
  iter : const_iterator;
  active_notes : list Note;
  last_read_end : timepos_t;
  connected : bool
}.

(** [AutomationList]: only its interpolation style matters here. *)
Record AutomationList := mkAutomationList {
  interpolation : InterpolationStyle
}.

(** [Evoral::Control]: its parameter and its list, which may be null. *)
Record Control := mkControl {
  control_parameter : Evoral_Parameter;
  control_list : option AutomationList
}.

(** [MidiModel]: the events in time order and the controls, in the order of
    the map [controls ()]. *)
Record MidiModel := mkModel {
  events : list Event;
  controls : list (Evoral_Parameter * Control)
}.

(** Modelled from the spec: the [StuckNoteOption] enum (evoral/Sequence.h) is
    not part of the sources; the specification gives the policy as deleting
    or closing the stuck notes. *)
Inductive StuckNoteOption := DeleteStuckNotes | ResolveStuckNotes.

(** The operations of [Evoral::Sequence] and [MidiModel] the source calls;
    their code is outside this file. *)
Class Sequence := {
  (** [begin (t, force_discrete, filtered, active_notes)] *)
  Sequence_begin :
    MidiModel -> Beats -> bool -> list Evoral_Parameter -> list Note ->
    const_iterator;
  start_write : MidiModel -> MidiModel;
  end_write : MidiModel -> StuckNoteOption -> Beats -> MidiModel
}.

(** ** The source *)

(** What a source sends out, in order: its signals and the lines it writes
    to the [error] and [cerr] streams. *)
Inductive Emission :=
| Invalidated (rolling : bool)
| ModelChanged
| InterpolationChanged (p : Evoral_Parameter) (s : InterpolationStyle)
| AutomationStateChanged (p : Evoral_Parameter) (s : AutoState)
| error_msg (msg : string)
| cerr_msg (msg : string).

(** The calls a source receives that its storage backend implements (the
    pure virtual members of [MidiSource], and [FileSource]), and the writes
    of a model into it. *)
Inductive BackendCall :=
| model_write_to (m : MidiModel)
| model_write_section_to (m : MidiModel) (begin_time end_time : Beats)
                         (offset_events : bool)
| flush_midi
| load_model (force_reload : bool)
| destroy_model
| prevent_deletion.

Record MidiSource := mkSource {
  _name : string;
  _natural_position : timepos_t;
  _length : timecnt_t;
  _writing : bool;
  _capture_length : samplecnt_t;
  _captured_for : string;
  _model : option MidiModel;
  _interpolation_style : gmap Evoral_Parameter InterpolationStyle;
  _automation_state : gmap Evoral_Parameter AutoState;
  (** [_session.transport_rolling ()] *)
  transport_rolling : bool;
  (** ghost fields: what the source has sent out, and the backend calls it
      has received, oldest first *)
  emitted : list Emission;
  backend : list BackendCall
}.

Definition set_natural_position (pos : timepos_t) (s : MidiSource) :=
  mkSource (_name s) pos (_length s) (_writing s) (_capture_length s)
           (_captured_for s) (_model s) (_interpolation_style s)
           (_automation_state s) (transport_rolling s) (emitted s) (backend s).

Definition with_length (l : timecnt_t) (s : MidiSource) :=
  mkSource (_name s) (_natural_position s) l (_writing s) (_capture_length s)
           (_captured_for s) (_model s) (_interpolation_style s)
           (_automation_state s) (transport_rolling s) (emitted s) (backend s).

Definition with_writing (w : bool) (s : MidiSource) :=
  mkSource (_name s) (_natural_position s) (_length s) w (_capture_length s)
           (_captured_for s) (_model s) (_interpolation_style s)
           (_automation_state s) (transport_rolling s) (emitted s) (backend s).

Definition with_capture_length (c : samplecnt_t) (s : MidiSource) :=
  mkSource (_name s) (_natural_position s) (_length s) (_writing s) c
           (_captured_for s) (_model s) (_interpolation_style s)
           (_automation_state s) (transport_rolling s) (emitted s) (backend s).

Definition with_captured_for (c : string) (s : MidiSource) :=
  mkSource (_name s) (_natural_position s) (_length s) (_writing s)
           (_capture_length s) c (_model s) (_interpolation_style s)
           (_automation_state s) (transport_rolling s) (emitted s) (backend s).

Definition with_model (m : option MidiModel) (s : MidiSource) :=
  mkSource (_name s) (_natural_position s) (_length s) (_writing s)
           (_capture_length s) (_captured_for s) m (_interpolation_style s)
           (_automation_state s) (transport_rolling s) (emitted s) (backend s).

Definition with_interpolation_style
    (i : gmap Evoral_Parameter InterpolationStyle) (s : MidiSource) :=
  mkSource (_name s) (_natural_position s) (_length s) (_writing s)
           (_capture_length s) (_captured_for s) (_model s) i
           (_automation_state s) (transport_rolling s) (emitted s) (backend s).

Definition with_automation_state
    (a : gmap Evoral_Parameter AutoState) (s : MidiSource) :=
  mkSource (_name s) (_natural_position s) (_length s) (_writing s)
           (_capture_length s) (_captured_for s) (_model s)
           (_interpolation_style s) a (transport_rolling s) (emitted s)
           (backend s).

(** [EMIT SIGNAL], and a line on [error] or [cerr]. *)
Definition emit (e : Emission) (s : MidiSource) :=
  mkSource (_name s) (_natural_position s) (_length s) (_writing s)
           (_capture_length s) (_captured_for s) (_model s)
           (_interpolation_style s) (_automation_state s)
           (transport_rolling s) (emitted s ++ [e]) (backend s).

(** A call the backend of [s] implements. *)
Definition call (c : BackendCall) (s : MidiSource) :=
  mkSource (_name s) (_natural_position s) (_length s) (_writing s)
           (_capture_length s) (_captured_for s) (_model s)
           (_interpolation_style s) (_automation_state s)
           (transport_rolling s) (emitted s) (backend s ++ [c]).

(** [MidiSource::MidiSource (Session&, string, Source::Flag)]: not writing,
    no capture length, no model and no override. *)
Definition new_MidiSource (name : string) (rolling : bool) : MidiSource :=
  mkSource name 0 (mkCnt AudioTime 0) false 0 EmptyString None ∅ ∅ rolling [] [].

(** The raw storage of a source: the pure virtual [write_unlocked] and
    [read_unlocked] of [MidiSource], by the value they return (and, for a
    read, what they write to the sink). *)
Definition MidiRingBuffer := list (samplepos_t * list byte).

Class Storage := {
  write_unlocked :
    MidiSource -> MidiRingBuffer -> timepos_t -> timecnt_t -> timecnt_t;
  read_unlocked :
    MidiSource -> timepos_t -> timepos_t -> timecnt_t -> option Range ->
    option (list Event) -> option (list byte -> bool * list byte) ->
    list SinkWrite * option (list Event) * samplecnt_t
}.

(** The serialized state node ([XMLNode]): a name, string properties and
    children. *)
#[warnings="-register-all"]
Inductive XMLNode :=
| mkXMLNode (name : string) (properties : list (string * string))
            (children : list XMLNode).

Definition node_name (n : XMLNode) : string :=
  match n with mkXMLNode nm _ _ => nm end.

Definition node_properties (n : XMLNode) : list (string * string) :=
  match n with mkXMLNode _ ps _ => ps end.

Definition node_children (n : XMLNode) : list XMLNode :=
  match n with mkXMLNode _ _ cs => cs end.

(** [XMLNode::get_property (name, std::string&)]: the value of the first
    property of that name, if there is one. *)
Fixpoint lookup_property (ps : list (string * string)) (key : string)
  : option string :=
  match ps with
  | [] => None
  | (k, v) :: ps' => if decide (k = key) then Some v else lookup_property ps' key
  end.

Definition get_property (n : XMLNode) (key : string) : option string :=
  lookup_property (node_properties n) key.

Definition dquote : string := String (Ascii.ascii_of_nat 34) EmptyString.
Definition newline : string := String (Ascii.ascii_of_nat 10) EmptyString.

(** [MidiChannelFilter::filter (buf, size)]: whether the event is filtered
    out, and the bytes it leaves in the buffer it was given. *)
Definition MidiChannelFilter := list byte -> bool * list byte.

(** [MidiNoteTracker]: the events it was given to [track], oldest first. *)
Definition MidiNoteTracker := list Event.

Section MidiSource.

Context {registry : EventTypeMap} {convert : EnumConvert} {temporal : Temporal}
        {sequence : Sequence} {storage : Storage}.

(** *** Parameter metadata *)

Definition interpolation_of (src : MidiSource) (p : Evoral_Parameter)
  : InterpolationStyle :=
  match _interpolation_style src !! p with
  | None => EventTypeMap_interpolation_of p
  | Some s => s
  end.

Definition automation_state_of (src : MidiSource) (p : Evoral_Parameter)
  : AutoState :=
  match _automation_state src !! p with
  | None => Play
  | Some s => s
  end.

Definition set_interpolation_of (src : MidiSource) (p : Evoral_Parameter)
    (s : InterpolationStyle) : MidiSource :=
  if decide (interpolation_of src p = s) then src
  else
    let m :=
      if decide (EventTypeMap_interpolation_of p = s)
      then delete p (_interpolation_style src)
      else <[p := s]> (_interpolation_style src) in
    emit (InterpolationChanged p s) (with_interpolation_style m src).

Definition set_automation_state_of (src : MidiSource) (p : Evoral_Parameter)
    (s : AutoState) : MidiSource :=
  if decide (automation_state_of src p = s) then src
  else
    let m :=
      if decide (s = Play)
      then delete p (_automation_state src)
      else <[p := s]> (_automation_state src) in
    emit (AutomationStateChanged p s) (with_automation_state m src).

Definition copy_interpolation_from (s : MidiSource) (this : MidiSource) :=
  with_interpolation_style (_interpolation_style s) this.

Definition copy_automation_state_from (s : MidiSource) (this : MidiSource) :=
  with_automation_state (_automation_state s) this.

(** *** Invalidation, model attach and detach *)

Definition invalidate (src : MidiSource) : MidiSource :=
  emit (Invalidated (transport_rolling src)) src.

Definition drop_model (src : MidiSource) : MidiSource :=
  emit ModelChanged (invalidate (with_model None src)).

Definition set_model (src : MidiSource) (m : option MidiModel) : MidiSource :=
  emit ModelChanged (invalidate (with_model m src)).

(** *** Writing *)

Definition midi_write (src : MidiSource) (source : MidiRingBuffer)
    (source_start : timepos_t) (cnt : timecnt_t) : MidiSource * timecnt_t :=
  let ret := write_unlocked src source source_start cnt in
  let src' :=
    if decide (cnt = timecnt_max (time_domain cnt)) then invalidate src
    else with_capture_length
           (wrap_s64 (_capture_length src + timecnt_samples cnt)) src in
  (src', ret).

Definition mark_streaming_midi_write_started (src : MidiSource) : MidiSource :=
  with_writing true
    (match _model src with
     | Some m => with_model (Some (start_write m)) src
     | None => src
     end).

Definition mark_write_starting_now (src : MidiSource) (position : timepos_t)
    (capture_length : samplecnt_t) : MidiSource :=
  with_length (length_in_beats capture_length position)
    (with_capture_length capture_length (set_natural_position position src)).

Definition mark_streaming_write_started (src : MidiSource) : MidiSource :=
  mark_streaming_midi_write_started src.

(** [std::map::insert (std::make_pair (k, v))]: a key already in the map
    keeps its value. *)
Definition map_insert_pair {V} (k : Evoral_Parameter) (v : V)
    (m : gmap Evoral_Parameter V) : gmap Evoral_Parameter V :=
  match m !! k with
  | Some _ => m
  | None => <[k := v]> m
  end.

(** The loop of [mark_midi_streaming_write_completed] over the controls of
    the model: a control with a list gets a Discrete list and an entry in the
    interpolation map. *)
Fixpoint make_captured_controls_discrete
    (cs : list (Evoral_Parameter * Control))
    (styles : gmap Evoral_Parameter InterpolationStyle)
  : list (Evoral_Parameter * Control)
    * gmap Evoral_Parameter InterpolationStyle :=
  match cs with
  | [] => ([], styles)
  | (k, c) :: cs' =>
    match control_list c with
    | Some _ =>
      let c' := mkControl (control_parameter c)
                          (Some (mkAutomationList Discrete)) in
      let r := make_captured_controls_discrete cs'
                 (map_insert_pair (control_parameter c) Discrete styles) in
      ((k, c') :: r.1, r.2)
    | None =>
      let r := make_captured_controls_discrete cs' styles in
      ((k, c) :: r.1, r.2)
    end
  end.

Definition mark_midi_streaming_write_completed (src : MidiSource)
    (stuck_option : StuckNoteOption) (duration : timecnt_t) : MidiSource :=
  let src1 :=
    match _model src with
    | Some m =>
      let m1 := end_write m stuck_option (timecnt_beats duration) in
      let r := make_captured_controls_discrete (controls m1)
                 (_interpolation_style src) in
      with_interpolation_style r.2
        (with_model (Some (mkModel (events m1) r.1)) src)
    | None => src
    end in
  with_writing false (invalidate src1).

Definition mark_streaming_write_completed (src : MidiSource)
    (duration : timecnt_t) : MidiSource :=
  mark_midi_streaming_write_completed src DeleteStuckNotes duration.

(** *** Cloning and exporting *)

Definition export_write_to (this newsrc : MidiSource) (begin_time end_time : Beats)
  : MidiSource * MidiSource * Z :=
  match _model this with
  | None =>
    (emit (error_msg
             "programming error: no model for MidiSource during export") this,
     newsrc, -1)
  | Some m =>
    let newsrc1 := call (model_write_section_to m begin_time end_time true)
                        newsrc in
    (this, call flush_midi newsrc1, 0)
  end.

Definition write_to (this newsrc : MidiSource) (begin_time end_time : Beats)
  : MidiSource * MidiSource * Z :=
  let newsrc1 := set_natural_position (_natural_position this) newsrc in
  let newsrc2 := copy_interpolation_from this newsrc1 in
  let newsrc3 := copy_automation_state_from this newsrc2 in
  match _model this with
  | Some m =>
    let newsrc4 :=
      if decide (begin_time = 0 /\ end_time = Beats_max)
      then call (model_write_to m) newsrc3
      else call (model_write_section_to m begin_time end_time false) newsrc3 in
    let newsrc5 := call flush_midi newsrc4 in
    let newsrc6 :=
      if decide (begin_time <> 0 \/ end_time <> Beats_max)
      then (* force a reload of the model if the range is partial *)
        call (load_model true) newsrc5
      else (* re-create model *)
        call (load_model false) (call destroy_model newsrc5) in
    (this, call prevent_deletion newsrc6, 0)
  | None =>
    (emit (error_msg
             "programming error: no model for MidiSource during ::clone()")
          this,
     newsrc3, -1)
  end.

(** *** Deserialization *)

(** One iteration of the loop of [set_state] over the children of the node:
    the source it leaves, and [Some r] when the iteration returns [r] from
    [set_state], [None] when the loop goes on to the next child. *)
Definition set_state_child (src : MidiSource) (c : XMLNode)
  : MidiSource * option Z :=
  if decide (node_name c = "InterpolationStyle") then
    match get_property c "parameter" with
    | None =>
      (emit (error_msg "Missing parameter property on InterpolationStyle") src,
       Some (-1))
    | Some str =>
      let p := from_symbol str in
      match ptype p with
      | MidiSystemExclusiveAutomation =>
        (emit (cerr_msg ("Parameter " +:+ dquote +:+ str +:+ dquote +:+
                 " is system exclusive - no automation possible!" +:+ newline))
              src,
         None)
      | OtherAutomation _ =>
        (emit (cerr_msg ("Parameter " +:+ dquote +:+ str +:+ dquote +:+
                 " found for MIDI source ... not legal; ignoring this parameter"
                 +:+ newline))
              src,
         None)
      | _ =>
        (* backwards compat, older versions (<= 7000) saved an empty string
           for non default *)
        match get_property c "style" with
        | Some EmptyString =>
          (set_interpolation_of src p
             (if decide (EventTypeMap_interpolation_of p = Discrete)
              then Linear else Discrete),
           None)
        | style =>
          match style ≫= string_to_InterpolationStyle with
          | None =>
            (emit (error_msg "Missing style property on InterpolationStyle") src,
             Some (-1))
          | Some s => (set_interpolation_of src p s, None)
          end
        end
      end
    end
  else if decide (node_name c = "AutomationState") then
    match get_property c "parameter" with
    | None =>
      (emit (error_msg "Missing parameter property on AutomationState") src,
       Some (-1))
    | Some str =>
      let p := from_symbol str in
      (* backwards compat, older versions (<= 7000) saved an empty string
         for "off" *)
      match get_property c "state" with
      | Some EmptyString => (set_automation_state_of src p Off, None)
      | state =>
        match state ≫= string_to_AutoState with
        | None =>
          (emit (error_msg "Missing state property on AutomationState") src,
           Some (-1))
        | Some s => (set_automation_state_of src p s, None)
        end
      end
    end
  else (src, None).

Fixpoint set_state_children (src : MidiSource) (children : list XMLNode)
  : MidiSource * Z :=
  match children with
  | [] => (src, 0)
  | c :: rest =>
    match set_state_child src c with
    | (src', Some r) => (src', r)
    | (src', None) => set_state_children src' rest
    end
  end.

Definition set_state (src : MidiSource) (node : XMLNode) : MidiSource * Z :=
  let src1 :=
    match get_property node "captured-for" with
    | Some v => with_captured_for v src
    | None => src
    end in
  set_state_children src1 (node_children node).

(** *** Reading *)

(** [status = i->buffer ()[0]]; an event of a model has at least its status
    byte. *)
Definition status_of (ev : Event) : byte := default x00 (head (buffer ev)).

Definition is_channel_event (status : byte) : bool :=
  let st := Z.of_N (Byte.to_N status) in
  (0x80 <=? Z.land st 0xF0) && (st <=? 0xE0).

(** The [for] loop of [midi_read] from the iterator [i], whose pending
    events are [pend]: the pending events it leaves in [i], the sink and the
    tracker. *)
Fixpoint read_loop (source_start_beats session_source_start end_beats : Beats)
    (loop_range : option Range) (filter : option MidiChannelFilter)
    (pend : list Event) (dst : list SinkWrite)
    (tracker : option MidiNoteTracker)
  : list Event * list SinkWrite * option MidiNoteTracker :=
  match pend with
  | [] => ([], dst, tracker)
  | ev :: pend' =>
    (* Offset by source start to convert event time to session time *)
    let session_event_beats := source_start_beats + time ev in
    if session_event_beats <? session_source_start then
      (* event too early *)
      read_loop source_start_beats session_source_start end_beats
                loop_range filter pend' dst tracker
    else if end_beats <=? session_event_beats then
      (pend, dst, tracker)
    else
      (* in range *)
      let time_samples :=
        match loop_range with
        | Some r => squish_samples r session_event_beats
        | None => Beats_samples session_event_beats
        end in
      let dst' :=
        match filter with
        | Some f =>
          if is_channel_event (status_of ev) then
            (* Copy event so the filter can modify the channel. *)
            let r := f (buffer ev) in
            if negb r.1
            then dst ++ [mkSinkWrite time_samples (event_type ev) (size ev) r.2]
            else dst
          else
            dst ++ [mkSinkWrite time_samples (event_type ev) (size ev)
                                (buffer ev)]
        | None =>
          dst ++ [mkSinkWrite time_samples (event_type ev) (size ev)
                              (buffer ev)]
        end in
      let tracker' :=
        match tracker with
        | Some t => Some (t ++ [ev])
        | None => None
        end in
      read_loop source_start_beats session_source_start end_beats
                loop_range filter pend' dst' tracker'
  end.

(** [linear_read] and the test that decides on a fresh search. *)
Definition linear_read (cursor : MidiCursor) (start : timepos_t) : bool :=
  negb (last_read_end cursor =? 0) && (start =? last_read_end cursor).

Definition needs_search (cursor : MidiCursor) (start : timepos_t) : bool :=
  negb (linear_read cursor start) || negb (valid (iter cursor)).

(** The cursor as the loop finds it: after the search, if one is needed, and
    with its new [last_read_end]. *)
Definition prepare_cursor (m : MidiModel) (cursor : MidiCursor)
    (start : timepos_t) (cnt : timecnt_t)
    (filtered : list Evoral_Parameter) : MidiCursor :=
  let cursor1 :=
    if needs_search cursor start then
      (* cursor.connect (Invalidated); cursor.iter = _model->begin (...);
         cursor.active_notes.clear (); *)
      mkCursor (Sequence_begin m (timepos_beats start) false filtered
                               (active_notes cursor))
               [] (last_read_end cursor) true
    else cursor in
  mkCursor (iter cursor1) (active_notes cursor1) (timepos_add start cnt)
           (connected cursor1).

Record ReadResult := mkReadResult {
  rr_cursor : MidiCursor;
  rr_dst : list SinkWrite;
  rr_tracker : option MidiNoteTracker;
  rr_ret : timecnt_t
}.

(** The second part of [midi_read]: copy the events in [start, start + cnt)
    into [dst], from the iterator of the cursor. *)
Definition read_window (dst : list SinkWrite)
    (source_start start : timepos_t) (cnt : timecnt_t)
    (loop_range : option Range) (cursor : MidiCursor)
    (tracker : option MidiNoteTracker) (filter : option MidiChannelFilter)
  : ReadResult :=
  let source_start_beats := timepos_beats source_start in
  let region_start_beats := timepos_beats start in
  let cnt_beats := timecnt_beats cnt in
  let end_beats := source_start_beats + region_start_beats + cnt_beats in
  let session_source_start :=
    timepos_beats (timepos_plus source_start start) in
  let r := read_loop source_start_beats session_source_start end_beats
                     loop_range filter (pending (iter cursor)) dst tracker in
  mkReadResult
    (mkCursor (mkIter (valid (iter cursor)) r.1.1) (active_notes cursor)
              (last_read_end cursor) (connected cursor))
    r.1.2 r.2 cnt.

Definition midi_read (src : MidiSource) (dst : list SinkWrite)
    (source_start start : timepos_t) (cnt : timecnt_t)
    (loop_range : option Range) (cursor : MidiCursor)
    (tracker : option MidiNoteTracker) (filter : option MidiChannelFilter)
    (filtered : list Evoral_Parameter) : ReadResult :=
  match _model src with
  | None =>
    let r := read_unlocked src source_start start cnt loop_range tracker
                           filter in
    mkReadResult cursor (dst ++ r.1.1) r.1.2 (mkCnt AudioTime r.2)
  | Some m =>
    (* Find appropriate model iterator *)
    let cursor1 := prepare_cursor m cursor start cnt filtered in
    (* Copy events in [start, start + cnt) into dst *)
    read_window dst source_start start cnt loop_range cursor1 tracker filter
  end.

End MidiSource.

(** ** Sequences of operations and the minimality of the override maps *)

(** The public operations that change the override maps. *)
Inductive Operation :=
| op_set_interpolation_of (p : Evoral_Parameter) (s : InterpolationStyle)
| op_set_automation_state_of (p : Evoral_Parameter) (s : AutoState)
| op_write_completed (stuck_option : StuckNoteOption) (duration : timecnt_t).

Section Operations.

Context {registry : EventTypeMap} {sequence : Sequence} {temporal : Temporal}.

Definition apply_operation (src : MidiSource) (op : Operation) : MidiSource :=
  match op with
  | op_set_interpolation_of p s => set_interpolation_of src p s
  | op_set_automation_state_of p s => set_automation_state_of src p s
  | op_write_completed stuck_option duration =>
    mark_midi_streaming_write_completed src stuck_option duration
  end.

Definition run (src : MidiSource) (ops : list Operation) : MidiSource :=
  fold_left apply_operation ops src.

(** No entry of the interpolation map holds the default of its parameter. *)
Definition interpolation_minimal (src : MidiSource) : Prop :=
  forall p s, _interpolation_style src !! p = Some s ->
              s <> EventTypeMap_interpolation_of p.

(** No entry of the automation-state map holds Play. *)
Definition automation_minimal (src : MidiSource) : Prop :=
  forall p, _automation_state src !! p <> Some Play.

(** The only entries of the interpolation map that hold the default of their
    parameter are Discrete ones. *)
Definition interpolation_minimal_but_discrete (src : MidiSource) : Prop :=
  forall p s, _interpolation_style src !! p = Some s ->
              s = EventTypeMap_interpolation_of p -> s = Discrete.

(** The controls a write completion finds with a list all have a default
    other than Discrete. *)
Definition captured_default_differs (src : MidiSource) (op : Operation) : Prop :=
  match op with
  | op_write_completed stuck_option duration =>
    match _model src with
    | Some m =>
      Forall (fun kc : Evoral_Parameter * Control =>
                control_list kc.2 <> None ->
                EventTypeMap_interpolation_of (control_parameter kc.2)
                  <> Discrete)
             (controls (end_write m stuck_option (timecnt_beats duration)))
    | None => True
    end
  | _ => True
  end.

Fixpoint captured_defaults_differ (src : MidiSource) (ops : list Operation)
  : Prop :=
  match ops with
  | [] => True
  | op :: ops' =>
    captured_default_differs src op /\
    captured_defaults_differ (apply_operation src op) ops'
  end.

End Operations.

(** The cached iterator is kept exactly when the cursor has a last read end
    other than zero, the read starts there, and the iterator is valid. *)
Definition resumes (cursor : MidiCursor) (start : timepos_t) : Prop :=
  last_read_end cursor <> 0 /\ start = last_read_end cursor /\
  valid (iter cursor) = true.

(** The parameter types the type switch of [set_state] lets pass. *)
Definition automatable (t : AutomationType) : bool :=
  match t with
  | MidiSystemExclusiveAutomation | OtherAutomation _ => false
  | _ => true
  end.

(** A style or state property that is absent, or is neither the empty string
    of the legacy format nor a value the conversion reads. *)
Definition unreadable {A} (v : option string) (read : string -> option A)
  : bool :=
  match v with
  | None => true
  | Some EmptyString => false
  | Some s => match read s with None => true | Some _ => false end
  end.

Section RequiredFields.

Context {registry : EventTypeMap} {convert : EnumConvert}.

(** The children on which [set_state] returns: an entry of either kind
    without its parameter symbol, an AutomationState entry without a readable
    state, and an InterpolationStyle entry of an automatable parameter type
    without a readable style. *)
Definition lacks_required_field (c : XMLNode) : bool :=
  if decide (node_name c = "InterpolationStyle") then
    match get_property c "parameter" with
    | None => true
    | Some str =>
      automatable (ptype (from_symbol str))
      && unreadable (get_property c "style") string_to_InterpolationStyle
    end
  else if decide (node_name c = "AutomationState") then
    match get_property c "parameter" with
    | None => true
    | Some str => unreadable (get_property c "state") string_to_AutoState
    end
  else false.

End RequiredFields.

(** ** Example instances

    A registry, conversions, a timeline, a sequence and two storages on
    which the functions above evaluate. *)

Definition cc_volume : Evoral_Parameter := mkParameter MidiCCAutomation 0 7.
Definition pgm_change : Evoral_Parameter := mkParameter MidiPgmChangeAutomation 0 0.
Definition pitch_bend : Evoral_Parameter := mkParameter MidiPitchBenderAutomation 0 0.
Definition sysex : Evoral_Parameter := mkParameter MidiSystemExclusiveAutomation 0 0.
Definition gain : Evoral_Parameter := mkParameter (OtherAutomation 0) 0 0.

(** Symbols of five parameters; controllers, pressure and pitch bend ramp
    by default, a program change is a step. *)
Definition example_registry : EventTypeMap := {|
  from_symbol s :=
    if decide (s = "midicc-0-7") then cc_volume
    else if decide (s = "midi-pgm-change-0") then pgm_change
    else if decide (s = "midi-pitch-bender-0") then pitch_bend
    else if decide (s = "midi-sysex") then sysex
    else gain;
  to_symbol p :=
    match ptype p with
    | MidiCCAutomation => "midicc-0-7"
    | MidiPgmChangeAutomation => "midi-pgm-change-0"
    | MidiPitchBenderAutomation => "midi-pitch-bender-0"
    | MidiSystemExclusiveAutomation => "midi-sysex"
    | _ => "gain"
    end;
  EventTypeMap_interpolation_of p :=
    match ptype p with
    | MidiPgmChangeAutomation => Discrete
    | _ => Linear
    end
|}.

Definition example_convert : EnumConvert := {|
  string_to_InterpolationStyle s :=
    if decide (s = "Discrete") then Some Discrete
    else if decide (s = "Linear") then Some Linear
    else None;
  string_to_AutoState s :=
    if decide (s = "Off") then Some Off
    else if decide (s = "Play") then Some Play
    else if decide (s = "Touch") then Some (OtherAutoState 2)
    else None
|}.

(** A timeline on which a beat is a sample and a loop range folds a
    position at or after its end back into the range. *)
Definition example_temporal : Temporal := {|
  timecnt_max td := mkCnt td (2 ^ 62 - 1);
  Beats_max := 2 ^ 63 - 1;
  timecnt_samples c := distance c;
  timecnt_beats c := distance c;
  timepos_beats p := p;
  Beats_samples b := b;
  timepos_plus p q := p + q;
  timepos_add p c := p + distance c;
  squish_samples r b :=
    if b <? r.2 then b else r.1 + (b - r.1) mod (r.2 - r.1);
  length_in_beats len pos := mkCnt BeatTime len
|}.

(** Modelled from the spec: [Evoral::Sequence::begin] is not part of the
    sources; a search yields the events from the first one at or after the
    given time.  This sequence has no stuck note, and [start_write] and
    [end_write] leave it as it is. *)
Fixpoint first_at_or_after (t : Beats) (evs : list Event) : list Event :=
  match evs with
  | [] => []
  | ev :: evs' => if time ev <? t then first_at_or_after t evs' else evs
  end.

Definition example_sequence : Sequence := {|
  Sequence_begin m t force_discrete filtered notes :=
    mkIter true (first_at_or_after t (events m));
  start_write m := m;
  end_write m stuck_option duration := m
|}.

(** A storage that transfers all it is asked to, and a full one that
    transfers nothing; neither holds an event to read. *)
Definition example_storage : Storage := {|
  write_unlocked src source source_start cnt := cnt;
  read_unlocked src source_start start cnt loop_range tracker filter :=
    ([], tracker, 0)
|}.

Definition full_storage : Storage := {|
  write_unlocked src source source_start cnt := mkCnt (time_domain cnt) 0;
  read_unlocked src source_start start cnt loop_range tracker filter :=
    ([], tracker, 0)
|}.

(** A freshly constructed source, one with a model of three events and a
    captured program change, and a cursor that has not read yet. *)
Definition note_on_ch1 : Event := mkEvent 0 1 [x90; x3c; x64].
Definition pitch_bend_ch2 : Event := mkEvent 1 1 [xe1; x00; x40].
Definition note_off_ch1 : Event := mkEvent 2 1 [x80; x3c; x00].

Definition example_model : MidiModel :=
  mkModel [note_on_ch1; pitch_bend_ch2; note_off_ch1]
          [(pgm_change, mkControl pgm_change (Some (mkAutomationList Linear)))].

Definition fresh_source : MidiSource := new_MidiSource "midi" false.

Definition modeled_source : MidiSource := with_model (Some example_model) fresh_source.

Definition fresh_cursor : MidiCursor := mkCursor (mkIter false []) [] 0 false.

(** A channel filter that lets no channel pass. *)
Definition reject_all : MidiChannelFilter := fun buf => (true, buf).

(** Operations on the maps, the last one a write completion. *)
Definition example_operations : list Operation :=
  [op_set_interpolation_of cc_volume Discrete;
   op_set_automation_state_of cc_volume Off;
   op_set_interpolation_of pgm_change Linear;
   op_set_interpolation_of cc_volume Linear;
   op_write_completed DeleteStuckNotes (mkCnt BeatTime 4)].

(** A cursor whose last read ended at 0 with a valid iterator, positioned at
    the note off. *)
Definition cursor_at_zero : MidiCursor :=
  mkCursor (mkIter true [note_off_ch1]) [60%N] 0 true.

(** A source at position 100 with two overrides and no model, and an empty
    target. *)
Definition unmodeled_source : MidiSource :=
  with_automation_state {[ cc_volume := Off ]}
    (with_interpolation_style {[ cc_volume := Discrete ]}
       (set_natural_position 100 fresh_source)).

Definition target_source : MidiSource := new_MidiSource "copy" false.

(** State nodes: a legacy one, one with an automation state for the
    system-exclusive parameter, one with a system-exclusive interpolation
    entry that has no style, and one whose second child has no parameter. *)
Definition legacy_style_child : XMLNode :=
  mkXMLNode "InterpolationStyle"
            [("parameter", "midicc-0-7"); ("style", EmptyString)] [].

Definition legacy_state_child : XMLNode :=
  mkXMLNode "AutomationState"
            [("parameter", "midicc-0-7"); ("state", EmptyString)] [].

Definition sysex_style_child : XMLNode :=
  mkXMLNode "InterpolationStyle"
            [("parameter", "midi-sysex"); ("style", "Discrete")] [].

Definition sysex_state_child : XMLNode :=
  mkXMLNode "AutomationState"
            [("parameter", "midi-sysex"); ("state", "Off")] [].

Definition sysex_child_without_style : XMLNode :=
  mkXMLNode "InterpolationStyle" [("parameter", "midi-sysex")] [].

Definition child_without_parameter : XMLNode :=
  mkXMLNode "AutomationState" [("state", "Off")] [].

(** Two more children: a legacy interpolation entry for the system-exclusive
    parameter, and an automation state for a parameter that is not a MIDI
    one. *)
Definition sysex_legacy_style_child : XMLNode :=
  mkXMLNode "InterpolationStyle"
            [("parameter", "midi-sysex"); ("style", EmptyString)] [].

Definition gain_state_child : XMLNode :=
  mkXMLNode "AutomationState" [("parameter", "gain"); ("state", "Off")] [].

Definition source_node (children : list XMLNode) : XMLNode :=
  mkXMLNode "Source" [("captured-for", "track 1")] children.

(** ** Serialization *)

(** [XMLNode::set_property (name, value)]: the first property of that name
    gets the value, and without one a new property is added at the end;
    [XMLNode::add_child]: the child is added after the children there are. *)
Fixpoint replace_property (ps : list (string * string)) (key value : string)
  : list (string * string) :=
  match ps with
  | [] => [(key, value)]
  | (k, v) :: ps' =>
    if decide (k = key) then (k, value) :: ps'
    else (k, v) :: replace_property ps' key value
  end.

Definition set_property (n : XMLNode) (key value : string) : XMLNode :=
  mkXMLNode (node_name n) (replace_property (node_properties n) key value)
            (node_children n).

Definition add_child (n : XMLNode) (c : XMLNode) : XMLNode :=
  mkXMLNode (node_name n) (node_properties n) (node_children n ++ [c]).

(** The conversions of the two enums to the string [set_property] stores
    (pbd/enum_convert.h). *)
Class EnumPrint := {
  InterpolationStyle_to_string : InterpolationStyle -> string;
  AutoState_to_string : AutoState -> string
}.

(** [Evoral::Parameter::operator<], the order in which a [std::map] keyed by
    parameters is iterated; its code is outside this file. *)
Class ParameterOrder := {
  Parameter_less : Evoral_Parameter -> Evoral_Parameter -> bool
}.

Definition entry_before {order : ParameterOrder} {V}
    (a b : Evoral_Parameter * V) : Prop :=
  Parameter_less a.1 b.1 = true.

#[global] Instance entry_before_dec {order : ParameterOrder} {V}
    (a b : Evoral_Parameter * V) : Decision (entry_before a b).
Proof. unfold entry_before. apply _. Defined.

(** The entries of a map from [begin ()] to [end ()]. *)
Definition map_entries {order : ParameterOrder} {V}
    (m : gmap Evoral_Parameter V) : list (Evoral_Parameter * V) :=
  merge_sort entry_before (map_to_list m).

Section Serialization.

Context {registry : EventTypeMap} {print : EnumPrint} {order : ParameterOrder}.

Definition interpolation_child (e : Evoral_Parameter * InterpolationStyle)
  : XMLNode :=
  set_property
    (set_property (mkXMLNode "InterpolationStyle" [] []) "parameter"
                  (to_symbol e.1))
    "style" (InterpolationStyle_to_string e.2).

Definition automation_child (e : Evoral_Parameter * AutoState) : XMLNode :=
  set_property
    (set_property (mkXMLNode "AutomationState" [] []) "parameter"
                  (to_symbol e.1))
    "state" (AutoState_to_string e.2).

(** [MidiSource::get_state], on the node [base] that [Source::get_state]
    returns. *)
Definition get_state (base : XMLNode) (src : MidiSource) : XMLNode :=
  let node :=
    if (String.length (_captured_for src) =? 0)%nat then base
    else set_property base "captured-for" (_captured_for src) in
  let node1 :=
    fold_left (fun n e => add_child n (interpolation_child e))
              (map_entries (_interpolation_style src)) node in
  fold_left (fun n e => add_child n (automation_child e))
            (map_entries (_automation_state src)) node1.

End Serialization.

(** ** Runs of streamed writes *)

(** One call of [midi_write]: the ring buffer, the start and the count. *)
Definition WriteRequest := (MidiRingBuffer * timepos_t * timecnt_t)%type.

Section WriteRuns.

Context {temporal : Temporal} {storage : Storage}.

Definition midi_writes (src : MidiSource) (reqs : list WriteRequest)
  : MidiSource :=
  fold_left (fun s r => (midi_write s r.1.1 r.1.2 r.2).1) reqs src.

(** The samples of the counts that are not the sentinel, in all. *)
Fixpoint requested_samples (reqs : list WriteRequest) : Z :=
  match reqs with
  | [] => 0
  | r :: reqs' =>
    (if decide (r.2 = timecnt_max (time_domain r.2)) then 0
     else timecnt_samples r.2) + requested_samples reqs'
  end.

(** The requests with the sentinel as their count. *)
Definition sentinel_requests (reqs : list WriteRequest) : list WriteRequest :=
  filter (fun r => r.2 = timecnt_max (time_domain r.2)) reqs.

End WriteRuns.

(** ** The window of a read *)

Section Window.

Context {temporal : Temporal}.

(** The loop of [midi_read] stops at an event that is not too early and is
    at or past the end. *)
Definition past_window (source_start_beats session_source_start end_beats : Beats)
    (ev : Event) : bool :=
  negb (source_start_beats + time ev <? session_source_start)
  && (end_beats <=? source_start_beats + time ev).

(** The events the loop goes through, and those it leaves in the iterator. *)
Fixpoint events_passed (source_start_beats session_source_start end_beats : Beats)
    (pend : list Event) : list Event :=
  match pend with
  | [] => []
  | ev :: pend' =>
    if past_window source_start_beats session_source_start end_beats ev then []
    else ev :: events_passed source_start_beats session_source_start end_beats
                             pend'
  end.

Fixpoint events_left (source_start_beats session_source_start end_beats : Beats)
    (pend : list Event) : list Event :=
  match pend with
  | [] => []
  | ev :: pend' =>
    if past_window source_start_beats session_source_start end_beats ev
    then pend
    else events_left source_start_beats session_source_start end_beats pend'
  end.

(** The events of the window: those the loop goes through that are not too
    early. *)
Definition events_in_window
    (source_start_beats session_source_start end_beats : Beats)
    (pend : list Event) : list Event :=
  filter (fun ev => session_source_start <= source_start_beats + time ev)
         (events_passed source_start_beats session_source_start end_beats pend).

(** What an event of the window puts in the sink, if anything. *)
Definition sink_write_of (source_start_beats : Beats)
    (loop_range : option Range) (filter : option MidiChannelFilter)
    (ev : Event) : option SinkWrite :=
  let time_samples :=
    match loop_range with
    | Some r => squish_samples r (source_start_beats + time ev)
    | None => Beats_samples (source_start_beats + time ev)
    end in
  match filter with
  | Some f =>
    if is_channel_event (status_of ev) then
      if (f (buffer ev)).1 then None
      else Some (mkSinkWrite time_samples (event_type ev) (size ev)
                             (f (buffer ev)).2)
    else Some (mkSinkWrite time_samples (event_type ev) (size ev) (buffer ev))
  | None => Some (mkSinkWrite time_samples (event_type ev) (size ev) (buffer ev))
  end.

(** Events in the order of their time. *)
Definition time_ordered (pend : list Event) : Prop :=
  StronglySorted (fun a b => time a <= time b) pend.

End Window.

(** The fields of a source that are not its override maps, its captured-for
    label and what it has sent out. *)
Definition same_recording (a b : MidiSource) : Prop :=
  _name a = _name b /\ _natural_position a = _natural_position b /\
  _length a = _length b /\ _writing a = _writing b /\
  _capture_length a = _capture_length b /\ _model a = _model b /\
  transport_rolling a = transport_rolling b /\ backend a = backend b.

Section ReadableStates.

Context {registry : EventTypeMap} {convert : EnumConvert} {print : EnumPrint}.

(** The source [set_state] starts its loop from: [dst] with the label of
    the node, if it has one. *)
Definition with_label_of (base : XMLNode) (src dst : MidiSource) : MidiSource :=
  match (if (String.length (_captured_for src) =? 0)%nat
         then get_property base "captured-for"
         else Some (_captured_for src)) with
  | Some v => with_captured_for v dst
  | None => dst
  end.

(** A state that can be read back: for every override, the symbol of the
    parameter resolves to the parameter, and the string of the value is not
    empty and is read as the value; the parameters with an interpolation
    override are of a type the loader lets pass; and the node of the base
    class has no child of the two kinds. *)
Definition readable_state (base : XMLNode) (src : MidiSource) : Prop :=
  (forall p s, _interpolation_style src !! p = Some s ->
               from_symbol (to_symbol p) = p
               /\ automatable (ptype p) = true
               /\ InterpolationStyle_to_string s <> EmptyString
               /\ string_to_InterpolationStyle (InterpolationStyle_to_string s)
                  = Some s) /\
  (forall p a, _automation_state src !! p = Some a ->
               from_symbol (to_symbol p) = p
               /\ AutoState_to_string a <> EmptyString
               /\ string_to_AutoState (AutoState_to_string a) = Some a) /\
  Forall (fun c => node_name c <> "InterpolationStyle"
                   /\ node_name c <> "AutomationState") (node_children base).

End ReadableStates.

(** ** More example instances *)

Definition example_print : EnumPrint := {|
  InterpolationStyle_to_string s :=
    match s with Discrete => "Discrete" | Linear => "Linear" end;
  AutoState_to_string a :=
    match a with Off => "Off" | Play => "Play" | OtherAutoState _ => "Touch" end
|}.

(** Parameters by type, then channel, then id. *)
Definition example_order : ParameterOrder := {|
  Parameter_less p q :=
    bool_decide
      (encode (ptype p) < encode (ptype q)
       \/ (ptype p = ptype q
           /\ (pchannel p < pchannel q
               \/ (pchannel p = pchannel q /\ pid p < pid q)%N)%N))%positive
|}.

Definition base_node : XMLNode :=
  mkXMLNode "Source" [("name", "midi"); ("type", "midi")] [].

Definition example_requests : list WriteRequest :=
  [([], 0, mkCnt AudioTime 256);
   ([], 256, mkCnt AudioTime (2 ^ 62 - 1));
   ([], 256, mkCnt AudioTime 128)].

(** * Properties *)

(** ** The parameter metadata store *)

Section MetadataProperties.

Context {registry : EventTypeMap} {sequence : Sequence} {temporal : Temporal}.

Lemma interpolation_of_absent (src : MidiSource) (p : Evoral_Parameter) :
  _interpolation_style src !! p = None ->
  interpolation_of src p = EventTypeMap_interpolation_of p.
Proof. unfold interpolation_of. intros ->. reflexivity. Qed.

Lemma automation_state_of_absent (src : MidiSource) (p : Evoral_Parameter) :
  _automation_state src !! p = None -> automation_state_of src p = Play.
Proof. unfold automation_state_of. intros ->. reflexivity. Qed.

Lemma set_interpolation_of_current (src : MidiSource) (p : Evoral_Parameter) :
  set_interpolation_of src p (interpolation_of src p) = src.
Proof. unfold set_interpolation_of. rewrite decide_True; reflexivity. Qed.

Lemma set_automation_state_of_current (src : MidiSource) (p : Evoral_Parameter) :
  set_automation_state_of src p (automation_state_of src p) = src.
Proof. unfold set_automation_state_of. rewrite decide_True; reflexivity. Qed.

(** The setter establishes the value it is given. *)
Lemma interpolation_of_set (src : MidiSource) (p : Evoral_Parameter)
    (s : InterpolationStyle) :
  interpolation_of (set_interpolation_of src p s) p = s.
Proof.
  unfold set_interpolation_of.
  destruct (decide (interpolation_of src p = s)) as [E|E]; [exact E|].
  unfold interpolation_of; simpl.
  destruct (decide (EventTypeMap_interpolation_of p = s)) as [D|D].
  - rewrite lookup_delete_eq. exact D.
  - rewrite lookup_insert_eq. reflexivity.
Qed.

Lemma automation_state_of_set (src : MidiSource) (p : Evoral_Parameter)
    (s : AutoState) :
  automation_state_of (set_automation_state_of src p s) p = s.
Proof.
  unfold set_automation_state_of.
  destruct (decide (automation_state_of src p = s)) as [E|E]; [exact E|].
  unfold automation_state_of; simpl.
  destruct (decide (s = Play)) as [D|D].
  - rewrite lookup_delete_eq. symmetry. exact D.
  - rewrite lookup_insert_eq. reflexivity.
Qed.

(** C7: a setter called with the value that is already in effect returns
    the source as it was: the same override maps and the same emitted
    signals, so no notification; hence a setter called twice with one value
    does what one call does.  This holds for the interpolation style and for
    the automation state. *)
Theorem setter_of_current_value_is_noop
    (src : MidiSource) (p : Evoral_Parameter)
    (v : InterpolationStyle) (a : AutoState) :
  (interpolation_of src p = v -> set_interpolation_of src p v = src) /\
  (automation_state_of src p = a -> set_automation_state_of src p a = src) /\
  set_interpolation_of (set_interpolation_of src p v) p v
    = set_interpolation_of src p v /\
  set_automation_state_of (set_automation_state_of src p a) p a
    = set_automation_state_of src p a.
Proof.
  repeat split.
  - intros <-. apply set_interpolation_of_current.
  - intros <-. apply set_automation_state_of_current.
  - rewrite <- (interpolation_of_set src p v) at 2.
    apply set_interpolation_of_current.
  - rewrite <- (automation_state_of_set src p a) at 2.
    apply set_automation_state_of_current.
Qed.

End MetadataProperties.

Section MinimalityProperties.

Context {registry : EventTypeMap} {sequence : Sequence} {temporal : Temporal}.

Lemma map_insert_pair_lookup {V} (k p : Evoral_Parameter) (v s : V)
    (m : gmap Evoral_Parameter V) :
  map_insert_pair k v m !! p = Some s ->
  m !! p = Some s \/ (m !! p = None /\ p = k /\ s = v).
Proof.
  unfold map_insert_pair. destruct (m !! k) eqn:E; [by left|].
  destruct (decide (k = p)) as [->|N].
  - rewrite lookup_insert_eq. intros [= <-]. by right.
  - rewrite lookup_insert_ne by done. by left.
Qed.

(** What the loop over the controls leaves in the map: the entries it found
    and, for a control with a list whose parameter had no entry, Discrete. *)
Lemma make_captured_controls_discrete_lookup
    (cs : list (Evoral_Parameter * Control))
    (styles : gmap Evoral_Parameter InterpolationStyle)
    (p : Evoral_Parameter) (s : InterpolationStyle) :
  (make_captured_controls_discrete cs styles).2 !! p = Some s ->
  styles !! p = Some s \/
  (s = Discrete /\
   exists kc, kc ∈ cs /\ control_list kc.2 <> None /\ control_parameter kc.2 = p).
Proof.
  revert styles. induction cs as [|[k c] cs IH]; intros styles; simpl.
  - by left.
  - destruct (control_list c) eqn:E; simpl; intros L.
    + destruct (IH _ L) as [L'|(-> & kc & I & ? & ?)].
      * destruct (map_insert_pair_lookup _ _ _ _ _ L') as [?|(_ & -> & ->)];
          [by left|].
        right. split; [done|]. exists (k, c). simpl.
        split; [apply list_elem_of_here|]. split; [congruence|done].
      * right. split; [done|]. exists kc.
        split; [by apply list_elem_of_further|done].
    + destruct (IH _ L) as [?|(-> & kc & I & ? & ?)]; [by left|].
      right. split; [done|]. exists kc.
      split; [by apply list_elem_of_further|done].
Qed.

Lemma set_interpolation_of_minimal (src : MidiSource) (p : Evoral_Parameter)
    (s : InterpolationStyle) :
  interpolation_minimal src ->
  interpolation_minimal (set_interpolation_of src p s).
Proof.
  intros I q t. unfold set_interpolation_of.
  destruct (decide (interpolation_of src p = s)); [apply I|]. simpl.
  destruct (decide (EventTypeMap_interpolation_of p = s)) as [D|D].
  - rewrite lookup_delete_Some. intros [_ L]. by apply I.
  - rewrite lookup_insert_Some. intros [[<- <-]|[_ L]]; [congruence|by apply I].
Qed.

Lemma set_interpolation_of_minimal_but_discrete (src : MidiSource)
    (p : Evoral_Parameter) (s : InterpolationStyle) :
  interpolation_minimal_but_discrete src ->
  interpolation_minimal_but_discrete (set_interpolation_of src p s).
Proof.
  intros I q t. unfold set_interpolation_of.
  destruct (decide (interpolation_of src p = s)); [apply I|]. simpl.
  destruct (decide (EventTypeMap_interpolation_of p = s)) as [D|D].
  - rewrite lookup_delete_Some. intros [_ L]. by apply I.
  - rewrite lookup_insert_Some. intros [[<- <-]|[_ L]]; [congruence|by apply I].
Qed.

Lemma set_automation_state_of_minimal (src : MidiSource)
    (p : Evoral_Parameter) (s : AutoState) :
  automation_minimal src ->
  automation_minimal (set_automation_state_of src p s).
Proof.
  intros I q. unfold set_automation_state_of.
  destruct (decide (automation_state_of src p = s)); [apply I|]. simpl.
  destruct (decide (s = Play)) as [D|D].
  - rewrite lookup_delete_Some. intros [_ L]. by apply (I q).
  - rewrite lookup_insert_Some. intros [[_ ?]|[_ L]]; [done|by apply (I q)].
Qed.

Lemma mark_write_completed_styles (src : MidiSource)
    (stuck_option : StuckNoteOption) (duration : timecnt_t) :
  _interpolation_style
    (mark_midi_streaming_write_completed src stuck_option duration)
  = match _model src with
    | Some m =>
      (make_captured_controls_discrete
         (controls (end_write m stuck_option (timecnt_beats duration)))
         (_interpolation_style src)).2
    | None => _interpolation_style src
    end.
Proof.
  unfold mark_midi_streaming_write_completed. by destruct (_model src).
Qed.

Lemma mark_write_completed_states (src : MidiSource)
    (stuck_option : StuckNoteOption) (duration : timecnt_t) :
  _automation_state
    (mark_midi_streaming_write_completed src stuck_option duration)
  = _automation_state src.
Proof.
  unfold mark_midi_streaming_write_completed. by destruct (_model src).
Qed.

Lemma set_interpolation_of_states (src : MidiSource) (p : Evoral_Parameter)
    (s : InterpolationStyle) :
  _automation_state (set_interpolation_of src p s) = _automation_state src.
Proof.
  unfold set_interpolation_of.
  by destruct (decide (interpolation_of src p = s)).
Qed.

Lemma set_automation_state_of_styles (src : MidiSource) (p : Evoral_Parameter)
    (s : AutoState) :
  _interpolation_style (set_automation_state_of src p s)
  = _interpolation_style src.
Proof.
  unfold set_automation_state_of.
  by destruct (decide (automation_state_of src p = s)).
Qed.

Lemma apply_operation_automation_minimal (src : MidiSource) (op : Operation) :
  automation_minimal src -> automation_minimal (apply_operation src op).
Proof.
  intros I. destruct op as [p s|p s|so d]; simpl.
  - intros q. rewrite set_interpolation_of_states. apply I.
  - by apply set_automation_state_of_minimal.
  - intros q. rewrite mark_write_completed_states. apply I.
Qed.

Lemma apply_operation_minimal_but_discrete (src : MidiSource) (op : Operation) :
  interpolation_minimal_but_discrete src ->
  interpolation_minimal_but_discrete (apply_operation src op).
Proof.
  intros I. destruct op as [p s|p s|so d]; simpl.
  - by apply set_interpolation_of_minimal_but_discrete.
  - intros q t. rewrite set_automation_state_of_styles. apply I.
  - intros q t. rewrite mark_write_completed_styles.
    destruct (_model src); [|apply I].
    intros L. destruct (make_captured_controls_discrete_lookup _ _ _ _ L)
      as [L'|[-> _]]; [by apply I|done].
Qed.

Lemma apply_operation_minimal (src : MidiSource) (op : Operation) :
  interpolation_minimal src -> captured_default_differs src op ->
  interpolation_minimal (apply_operation src op).
Proof.
  intros I C. destruct op as [p s|p s|so d]; simpl in *.
  - by apply set_interpolation_of_minimal.
  - intros q t. rewrite set_automation_state_of_styles. apply I.
  - intros q t. rewrite mark_write_completed_styles.
    destruct (_model src); [|apply I].
    intros L. destruct (make_captured_controls_discrete_lookup _ _ _ _ L)
      as [L'|(-> & kc & In & Hl & <-)]; [by apply I|].
    rewrite Forall_forall in C. intros E. by apply (C kc In Hl).
Qed.

(** C3, as the code has it: after every sequence of [set_interpolation_of],
    [set_automation_state_of] and write completions, from a source whose maps
    are minimal, the automation-state map holds no Play entry, and the only
    interpolation entries equal to the default of their parameter are
    Discrete ones (the entries a write completion records for captured
    controls); when every control a completion finds with a list has a default
    other than Discrete, and so for every sequence of setter calls alone, no
    interpolation entry equals its default.  A key absent from a map reads as
    the default of its parameter, Play for the automation state. *)
Theorem override_maps_minimal_after_operations
    (src : MidiSource) (ops : list Operation) :
  automation_minimal src ->
  interpolation_minimal_but_discrete src ->
  automation_minimal (run src ops) /\
  interpolation_minimal_but_discrete (run src ops) /\
  (interpolation_minimal src -> captured_defaults_differ src ops ->
   interpolation_minimal (run src ops)) /\
  (forall p, _interpolation_style (run src ops) !! p = None ->
             interpolation_of (run src ops) p = EventTypeMap_interpolation_of p) /\
  (forall p, _automation_state (run src ops) !! p = None ->
             automation_state_of (run src ops) p = Play).
Proof.
  unfold run. revert src.
  induction ops as [|op ops IH]; intros src A D; simpl.
  - repeat split; auto using interpolation_of_absent, automation_state_of_absent.
  - destruct (IH (apply_operation src op)) as (A' & D' & M' & L1 & L2).
    + by apply apply_operation_automation_minimal.
    + by apply apply_operation_minimal_but_discrete.
    + repeat split; auto.
      intros M [C Cs]. apply M'; [by apply apply_operation_minimal|done].
Qed.

End MinimalityProperties.

Lemma setter_of_current_value_is_noop_witness :
  @set_interpolation_of example_registry fresh_source cc_volume Linear
  = fresh_source.
Proof.
  apply (proj1 (@setter_of_current_value_is_noop example_registry
                  fresh_source cc_volume Linear Play)).
  reflexivity.
Defined.

Lemma fresh_source_automation_minimal :
  automation_minimal (new_MidiSource "midi" false).
Proof. intros p. simpl. by rewrite lookup_empty. Qed.

Lemma fresh_source_interpolation_minimal {registry : EventTypeMap} :
  interpolation_minimal (new_MidiSource "midi" false).
Proof. intros p s. simpl. by rewrite lookup_empty. Qed.

Lemma minimal_is_minimal_but_discrete {registry : EventTypeMap}
    (src : MidiSource) :
  interpolation_minimal src -> interpolation_minimal_but_discrete src.
Proof. intros I p s L E. by destruct (I p s L). Qed.

Lemma override_maps_minimal_after_operations_witness :
  let src' := @run example_registry example_sequence example_temporal
                   modeled_source example_operations in
  automation_minimal src' /\
  @interpolation_minimal_but_discrete example_registry src' /\
  _interpolation_style src' !! pgm_change = Some Linear /\
  _interpolation_style src' !! cc_volume = None /\
  _automation_state src' !! cc_volume = Some Off.
Proof.
  destruct (@override_maps_minimal_after_operations example_registry
              example_sequence example_temporal modeled_source
              example_operations)
    as (A & D & _).
  - apply fresh_source_automation_minimal.
  - apply minimal_is_minimal_but_discrete, fresh_source_interpolation_minimal.
  - split; [exact A|]. split; [exact D|]. vm_compute. auto.
Defined.

Lemma write_completed_records_default :
  @interpolation_minimal example_registry modeled_source /\
  automation_minimal modeled_source /\
  ~ @interpolation_minimal example_registry
      (@run example_registry example_sequence example_temporal modeled_source
            [op_write_completed DeleteStuckNotes (mkCnt BeatTime 4)]).
Proof.
  split; [apply fresh_source_interpolation_minimal|].
  split; [apply fresh_source_automation_minimal|].
  intros I. by apply (I pgm_change Discrete).
Qed.

(** ** Streamed writes *)

Section WriteProperties.

Context {temporal : Temporal} {storage : Storage}.

Lemma wrap_s64_in_range (z : Z) : in_s64 z -> wrap_s64 z = z.
Proof.
  unfold in_s64, wrap_s64. intros R.
  rewrite Z.mod_small by lia. lia.
Qed.

(** C1, as the code has it: [midi_write] returns what the storage returns.
    For a count other than the sentinel it adds the samples of the REQUESTED
    count to the capture length (exactly, when the sum fits the 64-bit
    counter), whatever the storage returned, and emits nothing; for the
    sentinel it leaves the capture length as it is and emits Invalidated. *)
Theorem midi_write_adds_requested_count
    (src : MidiSource) (source : MidiRingBuffer) (source_start : timepos_t)
    (cnt : timecnt_t) :
  (midi_write src source source_start cnt).2
    = write_unlocked src source source_start cnt /\
  (cnt <> timecnt_max (time_domain cnt) ->
   _capture_length (midi_write src source source_start cnt).1
     = wrap_s64 (_capture_length src + timecnt_samples cnt) /\
   (in_s64 (_capture_length src + timecnt_samples cnt) ->
    _capture_length (midi_write src source source_start cnt).1
      = _capture_length src + timecnt_samples cnt) /\
   emitted (midi_write src source source_start cnt).1 = emitted src) /\
  (cnt = timecnt_max (time_domain cnt) ->
   _capture_length (midi_write src source source_start cnt).1
     = _capture_length src /\
   emitted (midi_write src source source_start cnt).1
     = emitted src ++ [Invalidated (transport_rolling src)]).
Proof.
  unfold midi_write; simpl. split; [reflexivity|]. split.
  - intros N. rewrite decide_False by exact N. simpl.
    split; [reflexivity|]. split; [|reflexivity].
    intros R. by apply wrap_s64_in_range.
  - intros E. rewrite decide_True by exact E. by simpl.
Qed.

End WriteProperties.

Lemma midi_write_adds_requested_count_witness :
  _capture_length
    (@midi_write example_temporal example_storage fresh_source [] 0
                 (mkCnt AudioTime 256)).1 = 256 /\
  emitted
    (@midi_write example_temporal example_storage fresh_source [] 0
                 (mkCnt AudioTime (2 ^ 62 - 1))).1 = [Invalidated false].
Proof.
  split.
  - apply (proj1 (proj2 (@midi_write_adds_requested_count example_temporal
             example_storage fresh_source [] 0 (mkCnt AudioTime 256)))).
    + discriminate.
    + unfold in_s64. simpl. lia.
  - apply (proj2 (proj2 (@midi_write_adds_requested_count example_temporal
             example_storage fresh_source [] 0 (mkCnt AudioTime (2 ^ 62 - 1))))).
    reflexivity.
Defined.

(** A bounded write of 10 samples to a storage that transfers nothing: the
    call returns 0 samples and the capture length has grown by 10. *)
Lemma midi_write_ignores_transferred_count :
  let cnt := mkCnt AudioTime 10 in
  let r := @midi_write example_temporal full_storage fresh_source [] 0 cnt in
  cnt <> @timecnt_max example_temporal (time_domain cnt) /\
  @timecnt_samples example_temporal r.2 = 0 /\
  _capture_length r.1
    <> _capture_length fresh_source + @timecnt_samples example_temporal r.2.
Proof. simpl. split; [discriminate|]. split; [reflexivity|]. vm_compute. discriminate. Qed.

(** ** Reads *)

Lemma is_channel_event_range (status : byte) :
  is_channel_event status = true
  <-> 0x80 <= Z.of_N (Byte.to_N status) <= 0xE0.
Proof.
  unfold is_channel_event. rewrite andb_true_iff, !Z.leb_le.
  destruct status; vm_compute; intuition congruence.
Qed.

(** C2, at a pitch bend on channel 2 (status 0xE1): the status has high
    nibble 0xE, yet [is_channel_event] is false for it, and a read through a
    filter that rejects every channel event still writes the pitch bend to
    the sink, unmodified, while the note on and the note off of the same
    window are rejected. *)
Theorem pitch_bend_above_channel_1_bypasses_filter :
  Z.land (Z.of_N (Byte.to_N xe1)) 0xF0 = 0xE0 /\
  is_channel_event xe1 = false /\
  rr_dst (@midi_read example_temporal example_sequence example_storage
            modeled_source [] 0 0 (mkCnt BeatTime 4) None fresh_cursor None
            (Some reject_all) [])
  = [mkSinkWrite 1 1 3 [xe1; x00; x40]].
Proof. split; [reflexivity|]. split; [reflexivity|]. vm_compute. reflexivity. Qed.

Section ReadProperties.

Context {temporal : Temporal} {sequence : Sequence} {storage : Storage}.

Lemma needs_search_false (cursor : MidiCursor) (start : timepos_t) :
  needs_search cursor start = false <-> resumes cursor start.
Proof.
  unfold needs_search, linear_read, resumes.
  rewrite orb_false_iff, !negb_false_iff, andb_true_iff, negb_true_iff.
  rewrite Z.eqb_neq, Z.eqb_eq. tauto.
Qed.

(** C6, as the code has it: a modeled read copies the window from the cursor
    that [prepare_cursor] leaves.  That cursor keeps the cached iterator and
    the active notes exactly when the last read end of the cursor is not
    zero, the start equals it and the cached iterator is valid; in every
    other case its iterator is a fresh search from the start in beats and its
    active notes are reset.  In both cases the last read end of the cursor
    after the read is start + cnt. *)
Theorem modeled_read_resumes_or_searches
    (src : MidiSource) (m : MidiModel) (dst : list SinkWrite)
    (source_start start : timepos_t) (cnt : timecnt_t)
    (loop_range : option Range) (cursor : MidiCursor)
    (tracker : option MidiNoteTracker) (filter : option MidiChannelFilter)
    (filtered : list Evoral_Parameter) :
  _model src = Some m ->
  midi_read src dst source_start start cnt loop_range cursor tracker filter
            filtered
  = read_window dst source_start start cnt loop_range
                (prepare_cursor m cursor start cnt filtered) tracker filter /\
  (resumes cursor start ->
   prepare_cursor m cursor start cnt filtered
   = mkCursor (iter cursor) (active_notes cursor) (timepos_add start cnt)
              (connected cursor)) /\
  (~ resumes cursor start ->
   prepare_cursor m cursor start cnt filtered
   = mkCursor (Sequence_begin m (timepos_beats start) false filtered
                              (active_notes cursor))
              [] (timepos_add start cnt) true) /\
  last_read_end
    (rr_cursor (midi_read src dst source_start start cnt loop_range cursor
                          tracker filter filtered))
  = timepos_add start cnt.
Proof.
  intros M. unfold midi_read. rewrite M.
  split; [reflexivity|]. split; [|split].
  - intros R. apply needs_search_false in R.
    unfold prepare_cursor. by rewrite R.
  - intros R. unfold prepare_cursor.
    destruct (needs_search cursor start) eqn:E; [reflexivity|].
    by apply needs_search_false in E.
  - reflexivity.
Qed.

End ReadProperties.

Lemma modeled_read_resumes_or_searches_witness :
  let r := @midi_read example_temporal example_sequence example_storage
             modeled_source [] 0 0 (mkCnt BeatTime 2) None fresh_cursor None
             None [] in
  r = @read_window example_temporal [] 0 0 (mkCnt BeatTime 2) None
        (@prepare_cursor example_temporal example_sequence example_model
           fresh_cursor 0 (mkCnt BeatTime 2) []) None None /\
  last_read_end (rr_cursor r) = 2.
Proof.
  destruct (@modeled_read_resumes_or_searches example_temporal
              example_sequence example_storage modeled_source example_model
              [] 0 0 (mkCnt BeatTime 2) None fresh_cursor None None []
              eq_refl) as (E & _ & _ & L).
  split; [exact E|exact L].
Defined.

(** The read starts where the last one ended (at 0) and the cached iterator
    is valid, and still the iterator is searched afresh and the active notes
    are reset: the read writes the two events from beat 0 on, where the
    cached iterator, at the note off of beat 2, had none to write. *)
Lemma read_at_zero_searches_afresh :
  0 = last_read_end cursor_at_zero /\
  valid (iter cursor_at_zero) = true /\
  iter (@prepare_cursor example_temporal example_sequence example_model
          cursor_at_zero 0 (mkCnt BeatTime 2) [])
    <> iter cursor_at_zero /\
  active_notes (@prepare_cursor example_temporal example_sequence example_model
          cursor_at_zero 0 (mkCnt BeatTime 2) []) = [] /\
  rr_dst (@midi_read example_temporal example_sequence example_storage
            modeled_source [] 0 0 (mkCnt BeatTime 2) None cursor_at_zero None
            None [])
    = [mkSinkWrite 0 1 3 [x90; x3c; x64]; mkSinkWrite 1 1 3 [xe1; x00; x40]] /\
  rr_dst (@read_window example_temporal [] 0 0 (mkCnt BeatTime 2) None
            cursor_at_zero None None) = [].
Proof. repeat split. discriminate. Qed.

(** ** Cloning *)

Section CloneProperties.

Context {temporal : Temporal}.

(** C5: with a model attached, [write_to] returns 0 and the target receives,
    in this order: for begin = 0 and end = the maximum beat value, the write
    of the entire model, the flush, the destruction of its model and the load
    of its model; for every other range, the write of the section from begin
    to end, the flush, and the forced reload of its model, without a
    destruction.  In both cases the flush comes before the reload. *)
Theorem write_to_full_or_partial
    (this newsrc : MidiSource) (m : MidiModel) (begin_time end_time : Beats) :
  _model this = Some m ->
  (write_to this newsrc begin_time end_time).2 = 0 /\
  (begin_time = 0 /\ end_time = Beats_max ->
   backend (write_to this newsrc begin_time end_time).1.2
   = backend newsrc
     ++ [model_write_to m; flush_midi; destroy_model; load_model false;
         prevent_deletion]) /\
  (~ (begin_time = 0 /\ end_time = Beats_max) ->
   backend (write_to this newsrc begin_time end_time).1.2
   = backend newsrc
     ++ [model_write_section_to m begin_time end_time false; flush_midi;
         load_model true; prevent_deletion]).
Proof.
  intros M. unfold write_to. rewrite M. split; [reflexivity|]. split.
  - intros F. rewrite (decide_True _ _ F).
    rewrite decide_False by (destruct F; tauto).
    simpl. by rewrite <- !app_assoc.
  - intros P. rewrite (decide_False _ _ P).
    rewrite decide_True
      by (destruct (decide (begin_time = 0)), (decide (end_time = Beats_max));
          tauto).
    simpl. by rewrite <- !app_assoc.
Qed.

(** C10: without a model, [write_to] returns -1, and the target it leaves
    has the natural position and both override maps of this source, and has
    received no backend call: the target is changed before the model is
    looked at. *)
Theorem write_to_without_model_changes_target
    (this newsrc : MidiSource) (begin_time end_time : Beats) :
  _model this = None ->
  (write_to this newsrc begin_time end_time).2 = -1 /\
  (write_to this newsrc begin_time end_time).1.2
  = copy_automation_state_from this
      (copy_interpolation_from this
         (set_natural_position (_natural_position this) newsrc)) /\
  _natural_position (write_to this newsrc begin_time end_time).1.2
  = _natural_position this /\
  _interpolation_style (write_to this newsrc begin_time end_time).1.2
  = _interpolation_style this /\
  _automation_state (write_to this newsrc begin_time end_time).1.2
  = _automation_state this /\
  backend (write_to this newsrc begin_time end_time).1.2 = backend newsrc.
Proof.
  intros M. unfold write_to. rewrite M. repeat split.
Qed.

End CloneProperties.

Lemma write_to_full_or_partial_witness :
  backend (@write_to example_temporal modeled_source target_source
             0 (2 ^ 63 - 1)).1.2
  = [model_write_to example_model; flush_midi; destroy_model;
     load_model false; prevent_deletion] /\
  backend (@write_to example_temporal modeled_source target_source 1 2).1.2
  = [model_write_section_to example_model 1 2 false; flush_midi;
     load_model true; prevent_deletion].
Proof.
  split.
  - apply (proj1 (proj2 (@write_to_full_or_partial example_temporal
             modeled_source target_source example_model 0 (2 ^ 63 - 1)
             eq_refl))).
    split; reflexivity.
  - apply (proj2 (proj2 (@write_to_full_or_partial example_temporal
             modeled_source target_source example_model 1 2 eq_refl))).
    intros [E _]. discriminate E.
Defined.

Lemma write_to_without_model_changes_target_witness :
  (@write_to example_temporal unmodeled_source target_source 0 4).2 = -1 /\
  _natural_position
    (@write_to example_temporal unmodeled_source target_source 0 4).1.2 = 100 /\
  (@write_to example_temporal unmodeled_source target_source 0 4).1.2
  <> target_source.
Proof.
  destruct (@write_to_without_model_changes_target example_temporal
              unmodeled_source target_source 0 4 eq_refl)
    as (S & _ & N & _).
  split; [exact S|]. split; [exact N|].
  intros E. rewrite E in N. discriminate N.
Defined.

(** ** Deserialization *)

Section StateProperties.

Context {registry : EventTypeMap} {convert : EnumConvert}.

Lemma set_state_child_goes_on (src : MidiSource) (c : XMLNode) :
  lacks_required_field c = false -> (set_state_child src c).2 = None.
Proof.
  unfold lacks_required_field, set_state_child, unreadable.
  repeat (case_decide || case_match); simplify_eq/=; try done.
Qed.

Lemma set_state_child_returns (src : MidiSource) (c : XMLNode) :
  lacks_required_field c = true ->
  exists msg, set_state_child src c = (emit (error_msg msg) src, Some (-1)).
Proof.
  unfold lacks_required_field, set_state_child, unreadable.
  repeat (case_decide || case_match); simplify_eq/=; try done; eauto.
Qed.

Lemma set_state_children_goes_on (src : MidiSource) (c : XMLNode)
    (rest : list XMLNode) :
  lacks_required_field c = false ->
  set_state_children src (c :: rest)
  = set_state_children (set_state_child src c).1 rest.
Proof.
  intros L. simpl. pose proof (set_state_child_goes_on src c L) as G.
  destruct (set_state_child src c) as [src' [r|]]; [discriminate G|reflexivity].
Qed.

(** The loop over children without a lacking field ends with 0, and a
    lacking child after them ends it at once with -1. *)
Lemma set_state_children_complete (src : MidiSource) (cs : list XMLNode) :
  Forall (fun c => lacks_required_field c = false) cs ->
  (set_state_children src cs).2 = 0.
Proof.
  revert src. induction cs as [|c cs IH]; intros src F; [reflexivity|].
  inversion F as [|? ? L F']; subst.
  rewrite set_state_children_goes_on by exact L. by apply IH.
Qed.

Lemma set_state_children_app (src : MidiSource) (pre post : list XMLNode) :
  Forall (fun c => lacks_required_field c = false) pre ->
  set_state_children src (pre ++ post)
  = set_state_children (set_state_children src pre).1 post.
Proof.
  revert src. induction pre as [|c pre IH]; intros src F; [reflexivity|].
  inversion F as [|? ? L F']; subst.
  rewrite <- app_comm_cons, !set_state_children_goes_on by exact L.
  by apply IH.
Qed.

Lemma set_state_children_returns (src : MidiSource) (c : XMLNode)
    (post : list XMLNode) :
  lacks_required_field c = true ->
  exists msg,
    set_state_children src (c :: post) = (emit (error_msg msg) src, -1).
Proof.
  intros L. destruct (set_state_child_returns src c L) as [msg E].
  exists msg. simpl. by rewrite E.
Qed.

Lemma automation_state_child_applied
    (src : MidiSource) (c : XMLNode) (str : string) (rest : list XMLNode) :
  get_property c "parameter" = Some str ->
  node_name c = "AutomationState" ->
  (get_property c "state" = Some EmptyString ->
   set_state_children src (c :: rest)
   = set_state_children (set_automation_state_of src (from_symbol str) Off)
                        rest) /\
  (forall v s,
     get_property c "state" = Some v -> v <> EmptyString ->
     string_to_AutoState v = Some s ->
     set_state_children src (c :: rest)
     = set_state_children (set_automation_state_of src (from_symbol str) s)
                          rest).
Proof.
  intros P N.
  assert (node_name c <> "InterpolationStyle") as N' by (rewrite N; done).
  split.
  - intros E. simpl. unfold set_state_child.
    rewrite decide_False by exact N'. rewrite decide_True by exact N.
    by rewrite P, E.
  - intros v s E V R. simpl. unfold set_state_child.
    rewrite decide_False by exact N'. rewrite decide_True by exact N.
    rewrite P, E. destruct v; [done|]. simpl. by rewrite R.
Qed.

(** An InterpolationStyle child whose parameter symbol resolves to a
    system-exclusive or unrecognized type is logged on [cerr] and skipped,
    and the loop goes on; the AutomationState branch has no test of the
    type. *)
Lemma child_of_unautomatable_type
    (src : MidiSource) (c : XMLNode) (str : string) (rest : list XMLNode) :
  get_property c "parameter" = Some str ->
  (node_name c = "InterpolationStyle" ->
   automatable (ptype (from_symbol str)) = false ->
   exists msg,
     set_state_children src (c :: rest)
     = set_state_children (emit (cerr_msg msg) src) rest /\
     _interpolation_style (emit (cerr_msg msg) src) = _interpolation_style src /\
     _automation_state (emit (cerr_msg msg) src) = _automation_state src) /\
  (node_name c = "AutomationState" ->
   (get_property c "state" = Some EmptyString ->
    set_state_children src (c :: rest)
    = set_state_children (set_automation_state_of src (from_symbol str) Off)
                         rest) /\
   (forall v s,
      get_property c "state" = Some v -> v <> EmptyString ->
      string_to_AutoState v = Some s ->
      set_state_children src (c :: rest)
      = set_state_children (set_automation_state_of src (from_symbol str) s)
                           rest)).
Proof.
  intros P. split.
  - intros N A. simpl. unfold set_state_child.
    rewrite decide_True by exact N. rewrite P.
    destruct (ptype (from_symbol str)); try discriminate A; eauto.
  - intros N. by apply automation_state_child_applied.
Qed.

(** The loop of [set_state] at a child with a parameter symbol and a style
    or state: the empty string of the legacy format, or a value that is
    read. *)
Lemma child_with_value
    (src : MidiSource) (c : XMLNode) (str : string) (rest : list XMLNode) :
  get_property c "parameter" = Some str ->
  (node_name c = "InterpolationStyle" ->
   automatable (ptype (from_symbol str)) = true ->
   (get_property c "style" = Some EmptyString ->
    exists s,
      (EventTypeMap_interpolation_of (from_symbol str) = Discrete -> s = Linear)
      /\ (EventTypeMap_interpolation_of (from_symbol str) = Linear ->
          s = Discrete)
      /\ set_state_children src (c :: rest)
         = set_state_children (set_interpolation_of src (from_symbol str) s)
                              rest
      /\ interpolation_of (set_interpolation_of src (from_symbol str) s)
                          (from_symbol str) = s) /\
   (forall v s,
      get_property c "style" = Some v -> v <> EmptyString ->
      string_to_InterpolationStyle v = Some s ->
      set_state_children src (c :: rest)
      = set_state_children (set_interpolation_of src (from_symbol str) s)
                           rest)) /\
  (node_name c = "AutomationState" ->
   (get_property c "state" = Some EmptyString ->
    set_state_children src (c :: rest)
    = set_state_children (set_automation_state_of src (from_symbol str) Off)
                         rest
    /\ automation_state_of (set_automation_state_of src (from_symbol str) Off)
                           (from_symbol str) = Off) /\
   (forall v s,
      get_property c "state" = Some v -> v <> EmptyString ->
      string_to_AutoState v = Some s ->
      set_state_children src (c :: rest)
      = set_state_children (set_automation_state_of src (from_symbol str) s)
                           rest)).
Proof.
  intros P. split.
  - intros N A. split.
    + intros E.
      exists (if decide (EventTypeMap_interpolation_of (from_symbol str)
                         = Discrete) then Linear else Discrete).
      split; [intros D; by rewrite decide_True|].
      split; [intros D; rewrite decide_False; [done|by rewrite D]|].
      split; [|apply interpolation_of_set].
      simpl. unfold set_state_child.
      rewrite decide_True by exact N. rewrite P, E.
      by destruct (ptype (from_symbol str)).
    + intros v s E V R. simpl. unfold set_state_child.
      rewrite decide_True by exact N. rewrite P, E.
      destruct v; [done|]. simpl. rewrite R.
      by destruct (ptype (from_symbol str)).
  - intros N.
    destruct (automation_state_child_applied src c str rest P N)
      as [E1 E2].
    split; [|exact E2].
    intros E. split; [by apply E1|apply automation_state_of_set].
Qed.

(** C9, as the code has it: [set_state] returns 0 when no child lacks a
    field the loop requires of it.  At the first child that does (an entry
    without its parameter symbol, an AutomationState entry without a readable
    state, an InterpolationStyle entry of an automatable parameter type
    without a readable style) it returns -1 at once: the source is as the
    children before that one left it, with one line on [error], and no later
    child is looked at.  An InterpolationStyle entry of a system-exclusive or
    unrecognized type is skipped before its style is looked at, with or
    without a style. *)
Theorem set_state_status (src : MidiSource) (node : XMLNode) :
  (Forall (fun c => lacks_required_field c = false) (node_children node) ->
   (set_state src node).2 = 0) /\
  (forall pre c post,
     node_children node = pre ++ c :: post ->
     Forall (fun c => lacks_required_field c = false) pre ->
     lacks_required_field c = true ->
     exists msg,
       set_state src node
       = (emit (error_msg msg)
               (set_state src (mkXMLNode (node_name node)
                                         (node_properties node) pre)).1,
          -1)) /\
  (forall c str,
     node_name c = "InterpolationStyle" ->
     get_property c "parameter" = Some str ->
     automatable (ptype (from_symbol str)) = false ->
     lacks_required_field c = false).
Proof.
  split; [|split].
  - intros F. unfold set_state. by apply set_state_children_complete.
  - intros pre c post E F L. unfold set_state. rewrite E.
    rewrite set_state_children_app by exact F.
    destruct (set_state_children_returns
                (set_state_children
                   match get_property node "captured-for" with
                   | Some v => with_captured_for v src
                   | None => src
                   end pre).1 c post L) as [msg R].
    exists msg. rewrite R. by destruct node.
  - intros c str N P A. unfold lacks_required_field.
    rewrite decide_True by exact N. by rewrite P, A.
Qed.

(** [set_state] when the loop reaches a child: the children before it
    lack no field, and the source is as they left it. *)
Lemma set_state_at_child (src : MidiSource) (node : XMLNode)
    (pre : list XMLNode) (c : XMLNode) (post : list XMLNode) :
  node_children node = pre ++ c :: post ->
  Forall (fun c => lacks_required_field c = false) pre ->
  set_state src node
  = set_state_children
      (set_state src (mkXMLNode (node_name node) (node_properties node) pre)).1
      (c :: post).
Proof.
  intros E F. unfold set_state. rewrite E.
  rewrite set_state_children_app by exact F. by destruct node.
Qed.

(** C8, as the code has it: when [set_state] reaches a child entry that has
    its parameter symbol, and the symbol resolves to a parameter of an
    automatable type (one the type switch lets pass), an empty style sets
    the interpolation of the parameter to Linear if the default of its type
    is Discrete and to Discrete if it is Linear, which then is the
    interpolation in effect; an empty state sets the automation state of the
    parameter to Off; a value that is not empty sets what the value reads
    as; and the load goes on with the children after it.  An
    InterpolationStyle entry of a system-exclusive or unrecognized type is
    logged and skipped, whatever its style: nothing is toggled. *)
Theorem set_state_legacy_empty_value
    (src : MidiSource) (node : XMLNode) (pre : list XMLNode) (c : XMLNode)
    (post : list XMLNode) (str : string) :
  node_children node = pre ++ c :: post ->
  Forall (fun c => lacks_required_field c = false) pre ->
  get_property c "parameter" = Some str ->
  let before :=
    (set_state src (mkXMLNode (node_name node) (node_properties node) pre)).1 in
  let p := from_symbol str in
  (node_name c = "InterpolationStyle" -> automatable (ptype p) = true ->
   (get_property c "style" = Some EmptyString ->
    exists s,
      (EventTypeMap_interpolation_of p = Discrete -> s = Linear) /\
      (EventTypeMap_interpolation_of p = Linear -> s = Discrete) /\
      set_state src node
      = set_state_children (set_interpolation_of before p s) post /\
      interpolation_of (set_interpolation_of before p s) p = s) /\
   (forall v s,
      get_property c "style" = Some v -> v <> EmptyString ->
      string_to_InterpolationStyle v = Some s ->
      set_state src node
      = set_state_children (set_interpolation_of before p s) post)) /\
  (node_name c = "InterpolationStyle" -> automatable (ptype p) = false ->
   exists msg,
     set_state src node = set_state_children (emit (cerr_msg msg) before) post) /\
  (node_name c = "AutomationState" -> automatable (ptype p) = true ->
   (get_property c "state" = Some EmptyString ->
    set_state src node
    = set_state_children (set_automation_state_of before p Off) post /\
    automation_state_of (set_automation_state_of before p Off) p = Off) /\
   (forall v s,
      get_property c "state" = Some v -> v <> EmptyString ->
      string_to_AutoState v = Some s ->
      set_state src node
      = set_state_children (set_automation_state_of before p s) post)).
Proof.
  intros E F P. cbv zeta.
  rewrite (set_state_at_child src node pre c post E F).
  set (before :=
         (set_state src (mkXMLNode (node_name node) (node_properties node)
                                   pre)).1).
  destruct (child_with_value before c str post P) as [I A].
  split; [|split].
  - intros N T. destruct (I N T) as [I1 I2]. split; [exact I1|exact I2].
  - intros N T.
    destruct (proj1 (child_of_unautomatable_type before c str post P) N T)
      as (msg & S & _).
    exists msg. exact S.
  - intros N T. exact (A N).
Qed.

End StateProperties.

(** C4, at AutomationState entries for the system-exclusive parameter and
    for a parameter that is not a MIDI one: [set_state] does not skip them.
    It returns 0 with Off stored for the parameter in the automation-state
    map, the change notified and nothing logged, where the InterpolationStyle
    entry for the same system-exclusive parameter is logged on [cerr] and
    leaves both maps as they were. *)
Theorem sysex_automation_state_is_applied :
  node_name sysex_state_child = "AutomationState" /\
  ptype (@from_symbol example_registry "midi-sysex")
  = MidiSystemExclusiveAutomation /\
  ptype (@from_symbol example_registry "gain") = OtherAutomation 0 /\
  (let r := @set_state example_registry example_convert fresh_source
              (source_node [sysex_state_child]) in
   r.2 = 0 /\
   _automation_state r.1 !! sysex = Some Off /\
   _automation_state r.1 <> _automation_state fresh_source /\
   emitted r.1 = [AutomationStateChanged sysex Off]) /\
  (let r := @set_state example_registry example_convert fresh_source
              (source_node [gain_state_child]) in
   r.2 = 0 /\
   _automation_state r.1 !! gain = Some Off /\
   emitted r.1 = [AutomationStateChanged gain Off]) /\
  (let r := @set_state example_registry example_convert fresh_source
              (source_node [sysex_style_child]) in
   r.2 = 0 /\
   _interpolation_style r.1 = _interpolation_style fresh_source /\
   _automation_state r.1 = _automation_state fresh_source /\
   exists msg, emitted r.1 = [cerr_msg msg]).
Proof.
  split; [reflexivity|]. split; [reflexivity|]. split; [reflexivity|].
  split; [|split].
  - simpl. split; [reflexivity|]. split; [reflexivity|]. split; [|reflexivity].
    intros E. apply (f_equal (fun m => m !! sysex)) in E. discriminate E.
  - simpl. by repeat split.
  - simpl. repeat split. eauto.
Qed.

Lemma set_state_legacy_empty_value_witness :
  let r := @set_state example_registry example_convert fresh_source
             (source_node [sysex_style_child; legacy_style_child;
                           legacy_state_child]) in
  r.2 = 0 /\
  @interpolation_of example_registry r.1 cc_volume = Discrete /\
  automation_state_of r.1 cc_volume = Off.
Proof.
  pose proof (@set_state_legacy_empty_value example_registry example_convert
                fresh_source
                (source_node [sysex_style_child; legacy_style_child;
                              legacy_state_child])
                [sysex_style_child] legacy_style_child [legacy_state_child]
                "midicc-0-7" eq_refl ltac:(repeat constructor) eq_refl)
    as (I & _ & _).
  destruct (proj1 (I eq_refl eq_refl) eq_refl) as (s & _ & L & E & _).
  cbv zeta. rewrite E, (L eq_refl). by repeat split.
Defined.

(** A legacy InterpolationStyle entry, with an empty style, for the
    system-exclusive parameter: the load returns 0 with a line on [cerr], no
    entry in the map, and the interpolation of the parameter at its default,
    Linear, not toggled to Discrete. *)
Lemma sysex_legacy_style_is_skipped :
  node_name sysex_legacy_style_child = "InterpolationStyle" /\
  get_property sysex_legacy_style_child "style" = Some EmptyString /\
  @EventTypeMap_interpolation_of example_registry sysex = Linear /\
  let r := @set_state example_registry example_convert fresh_source
             (source_node [sysex_legacy_style_child]) in
  r.2 = 0 /\
  _interpolation_style r.1 = _interpolation_style fresh_source /\
  @interpolation_of example_registry r.1 sysex = Linear /\
  @interpolation_of example_registry r.1 sysex <> Discrete /\
  exists msg, emitted r.1 = [cerr_msg msg].
Proof.
  split; [reflexivity|]. split; [reflexivity|]. split; [reflexivity|].
  simpl. split; [reflexivity|]. split; [reflexivity|].
  split; [reflexivity|]. split; [discriminate|]. eauto.
Qed.

Lemma set_state_status_witness :
  (@set_state example_registry example_convert fresh_source
     (source_node [legacy_style_child; sysex_state_child])).2 = 0 /\
  (@set_state example_registry example_convert fresh_source
     (source_node [legacy_style_child; child_without_parameter;
                   legacy_state_child])).2 = -1.
Proof.
  split.
  - apply (proj1 (@set_state_status example_registry example_convert
                    fresh_source
                    (source_node [legacy_style_child; sysex_state_child]))).
    repeat constructor.
  - destruct (proj1 (proj2 (@set_state_status example_registry example_convert
                    fresh_source
                    (source_node [legacy_style_child; child_without_parameter;
                                  legacy_state_child])))
                [legacy_style_child] child_without_parameter
                [legacy_state_child] eq_refl)
      as [msg E].
    + repeat constructor.
    + reflexivity.
    + rewrite E. reflexivity.
Defined.

(** An InterpolationStyle entry for the system-exclusive parameter has no
    style, and the load returns 0 with the maps as they were. *)
Lemma sysex_child_without_style_is_skipped :
  node_name sysex_child_without_style = "InterpolationStyle" /\
  get_property sysex_child_without_style "style" = None /\
  let r := @set_state example_registry example_convert fresh_source
             (source_node [sysex_child_without_style]) in
  r.2 = 0 /\
  _interpolation_style r.1 = _interpolation_style fresh_source.
Proof. repeat split. Qed.

(** ** More on the parameter metadata store *)

Section SetterProperties.

Context {registry : EventTypeMap}.

Lemma set_interpolation_of_lookup (src : MidiSource) (p k : Evoral_Parameter)
    (s : InterpolationStyle) :
  _interpolation_style (set_interpolation_of src p s) !! k
  = if decide (k = p) then
      if decide (interpolation_of src p = s) then _interpolation_style src !! p
      else if decide (EventTypeMap_interpolation_of p = s) then None
           else Some s
    else _interpolation_style src !! k.
Proof.
  unfold set_interpolation_of.
  destruct (decide (k = p)) as [->|N];
    destruct (decide (interpolation_of src p = s)); try reflexivity; simpl;
    destruct (decide (EventTypeMap_interpolation_of p = s)).
  - apply lookup_delete_eq.
  - apply lookup_insert_eq.
  - by apply lookup_delete_ne.
  - by apply lookup_insert_ne.
Qed.

Lemma set_automation_state_of_lookup (src : MidiSource)
    (p k : Evoral_Parameter) (s : AutoState) :
  _automation_state (set_automation_state_of src p s) !! k
  = if decide (k = p) then
      if decide (automation_state_of src p = s) then _automation_state src !! p
      else if decide (s = Play) then None else Some s
    else _automation_state src !! k.
Proof.
  unfold set_automation_state_of.
  destruct (decide (k = p)) as [->|N];
    destruct (decide (automation_state_of src p = s)); try reflexivity; simpl;
    destruct (decide (s = Play)).
  - apply lookup_delete_eq.
  - apply lookup_insert_eq.
  - by apply lookup_delete_ne.
  - by apply lookup_insert_ne.
Qed.

Lemma interpolation_of_set_other (src : MidiSource) (p q : Evoral_Parameter)
    (s : InterpolationStyle) :
  q <> p ->
  interpolation_of (set_interpolation_of src p s) q = interpolation_of src q.
Proof.
  intros N. unfold interpolation_of.
  by rewrite set_interpolation_of_lookup, decide_False.
Qed.

Lemma automation_state_of_set_other (src : MidiSource)
    (p q : Evoral_Parameter) (s : AutoState) :
  q <> p ->
  automation_state_of (set_automation_state_of src p s) q
  = automation_state_of src q.
Proof.
  intros N. unfold automation_state_of.
  by rewrite set_automation_state_of_lookup, decide_False.
Qed.

(** Minimal maps are determined by the values in effect. *)
Lemma minimal_styles_determined (a b : MidiSource) :
  interpolation_minimal a -> interpolation_minimal b ->
  (forall p, interpolation_of a p = interpolation_of b p) ->
  _interpolation_style a = _interpolation_style b.
Proof.
  intros Ma Mb E. apply map_eq. intros p. specialize (E p).
  unfold interpolation_of in E.
  destruct (_interpolation_style a !! p) as [x|] eqn:La;
    destruct (_interpolation_style b !! p) as [y|] eqn:Lb.
  - by rewrite E.
  - by destruct (Ma p x La).
  - by destruct (Mb p y Lb).
  - reflexivity.
Qed.

Lemma minimal_states_determined (a b : MidiSource) :
  automation_minimal a -> automation_minimal b ->
  (forall p, automation_state_of a p = automation_state_of b p) ->
  _automation_state a = _automation_state b.
Proof.
  intros Ma Mb E. apply map_eq. intros p. specialize (E p).
  unfold automation_state_of in E.
  destruct (_automation_state a !! p) as [x|] eqn:La;
    destruct (_automation_state b !! p) as [y|] eqn:Lb.
  - by rewrite E.
  - subst x. by destruct (Ma p).
  - subst y. by destruct (Mb p).
  - reflexivity.
Qed.

(** X1: after a setter call the value in effect is the value set at the
    parameter of the call and the value there was at every other parameter,
    and the other kind of metadata is as it was at every parameter. *)
Theorem effective_value_after_setter
    (src : MidiSource) (p q : Evoral_Parameter)
    (s : InterpolationStyle) (a : AutoState) :
  interpolation_of (set_interpolation_of src p s) q
    = (if decide (q = p) then s else interpolation_of src q) /\
  automation_state_of (set_automation_state_of src p a) q
    = (if decide (q = p) then a else automation_state_of src q) /\
  automation_state_of (set_interpolation_of src p s) q
    = automation_state_of src q /\
  interpolation_of (set_automation_state_of src p a) q
    = interpolation_of src q.
Proof.
  repeat split.
  - destruct (decide (q = p)) as [->|N];
      [apply interpolation_of_set|by apply interpolation_of_set_other].
  - destruct (decide (q = p)) as [->|N];
      [apply automation_state_of_set|by apply automation_state_of_set_other].
  - unfold automation_state_of. by rewrite set_interpolation_of_states.
  - unfold interpolation_of. by rewrite set_automation_state_of_styles.
Qed.

(** X2: on a source whose maps are minimal, two calls of a setter for one
    parameter leave the map the last call alone would leave. *)
Theorem setter_last_call_wins
    (src : MidiSource) (p : Evoral_Parameter)
    (s1 s2 : InterpolationStyle) (a1 a2 : AutoState) :
  interpolation_minimal src -> automation_minimal src ->
  _interpolation_style
    (set_interpolation_of (set_interpolation_of src p s1) p s2)
  = _interpolation_style (set_interpolation_of src p s2) /\
  _automation_state
    (set_automation_state_of (set_automation_state_of src p a1) p a2)
  = _automation_state (set_automation_state_of src p a2).
Proof.
  intros I A. split.
  - apply minimal_styles_determined;
      auto using set_interpolation_of_minimal.
    intros q. destruct (decide (q = p)) as [->|N].
    + by rewrite !interpolation_of_set.
    + by rewrite !interpolation_of_set_other.
  - apply minimal_states_determined;
      auto using set_automation_state_of_minimal.
    intros q. destruct (decide (q = p)) as [->|N].
    + by rewrite !automation_state_of_set.
    + by rewrite !automation_state_of_set_other.
Qed.

(** X3: setter calls for two different parameters leave the same maps in
    either order, and so do a call of each setter, for any two parameters. *)
Theorem setters_commute
    (src : MidiSource) (p q : Evoral_Parameter)
    (s t : InterpolationStyle) (a b : AutoState) :
  (p <> q ->
   _interpolation_style
     (set_interpolation_of (set_interpolation_of src p s) q t)
   = _interpolation_style
       (set_interpolation_of (set_interpolation_of src q t) p s)) /\
  (p <> q ->
   _automation_state
     (set_automation_state_of (set_automation_state_of src p a) q b)
   = _automation_state
       (set_automation_state_of (set_automation_state_of src q b) p a)) /\
  _interpolation_style (set_automation_state_of (set_interpolation_of src p s) q a)
  = _interpolation_style (set_interpolation_of (set_automation_state_of src q a) p s) /\
  _automation_state (set_automation_state_of (set_interpolation_of src p s) q a)
  = _automation_state (set_interpolation_of (set_automation_state_of src q a) p s).
Proof.
  repeat split.
  - intros N. apply map_eq. intros k.
    rewrite !set_interpolation_of_lookup.
    rewrite !interpolation_of_set_other by done.
    repeat case_decide; simplify_eq; done.
  - intros N. apply map_eq. intros k.
    rewrite !set_automation_state_of_lookup.
    rewrite !automation_state_of_set_other by done.
    repeat case_decide; simplify_eq; done.
  - rewrite set_automation_state_of_styles. apply map_eq. intros k.
    rewrite !set_interpolation_of_lookup.
    unfold interpolation_of. by rewrite set_automation_state_of_styles.
  - rewrite set_interpolation_of_states. apply map_eq. intros k.
    rewrite !set_automation_state_of_lookup.
    unfold automation_state_of. by rewrite set_interpolation_of_states.
Qed.

(** X4: setting a parameter to its default (Play for the automation state)
    never makes a map larger, takes out an override that differed from the
    default, and leaves the default in effect. *)
Theorem set_to_default_never_grows (src : MidiSource) (p : Evoral_Parameter) :
  (base.size (_interpolation_style
           (set_interpolation_of src p (EventTypeMap_interpolation_of p)))
   <= base.size (_interpolation_style src))%nat /\
  (forall v, _interpolation_style src !! p = Some v ->
             v <> EventTypeMap_interpolation_of p ->
             _interpolation_style
               (set_interpolation_of src p (EventTypeMap_interpolation_of p))
             = delete p (_interpolation_style src)) /\
  (base.size (_automation_state (set_automation_state_of src p Play))
   <= base.size (_automation_state src))%nat /\
  (forall v, _automation_state src !! p = Some v -> v <> Play ->
             _automation_state (set_automation_state_of src p Play)
             = delete p (_automation_state src)).
Proof.
  repeat split.
  - unfold set_interpolation_of.
    destruct (decide (interpolation_of src p = EventTypeMap_interpolation_of p));
      [done|]. simpl. rewrite decide_True by done.
    apply map_subseteq_size, delete_subseteq.
  - intros v L N. unfold set_interpolation_of, interpolation_of. rewrite L.
    rewrite decide_False by done. simpl. by rewrite decide_True.
  - unfold set_automation_state_of.
    destruct (decide (automation_state_of src p = Play)); [done|]. simpl.
    apply map_subseteq_size, delete_subseteq.
  - intros v L N. unfold set_automation_state_of, automation_state_of.
    rewrite L. by rewrite decide_False.
Qed.

End SetterProperties.

(** ** More on deserialization *)

Section MoreStateProperties.

Context {registry : EventTypeMap} {convert : EnumConvert}.

(** What one iteration of the loop of [set_state] leaves: the source, or the
    source after one setter call, in both cases with or without a line on
    [error] or [cerr]. *)
Lemma set_state_child_cases (src : MidiSource) (c : XMLNode) :
  let src' := (set_state_child src c).1 in
  src' = src \/ (exists e, src' = emit e src) \/
  (exists p s, src' = set_interpolation_of src p s) \/
  (exists p s, src' = set_automation_state_of src p s).
Proof.
  unfold set_state_child.
  repeat (case_decide || case_match); simpl; eauto 6.
Qed.

Lemma set_state_child_keeps (P : MidiSource -> Prop) (src : MidiSource)
    (c : XMLNode) :
  (forall e s, P s -> P (emit e s)) ->
  (forall p v s, P s -> P (set_interpolation_of s p v)) ->
  (forall p v s, P s -> P (set_automation_state_of s p v)) ->
  P src -> P (set_state_child src c).1.
Proof.
  intros He Hi Ha Hs.
  destruct (set_state_child_cases src c)
    as [->|[[e ->]|[(p & s & ->)|(p & s & ->)]]]; auto.
Qed.

Lemma set_state_children_keeps (P : MidiSource -> Prop) (src : MidiSource)
    (cs : list XMLNode) :
  (forall e s, P s -> P (emit e s)) ->
  (forall p v s, P s -> P (set_interpolation_of s p v)) ->
  (forall p v s, P s -> P (set_automation_state_of s p v)) ->
  P src -> P (set_state_children src cs).1.
Proof.
  intros He Hi Ha. revert src.
  induction cs as [|c cs IH]; intros src Hs; [exact Hs|]. simpl.
  pose proof (set_state_child_keeps P src c He Hi Ha Hs) as K.
  destruct (set_state_child src c) as [src' [r|]]; [exact K|by apply IH].
Qed.

Lemma set_state_keeps (P : MidiSource -> Prop) (src : MidiSource)
    (node : XMLNode) :
  (forall e s, P s -> P (emit e s)) ->
  (forall p v s, P s -> P (set_interpolation_of s p v)) ->
  (forall p v s, P s -> P (set_automation_state_of s p v)) ->
  (forall v, P src -> P (with_captured_for v src)) ->
  P src -> P (set_state src node).1.
Proof.
  intros He Hi Ha Hc Hs. unfold set_state.
  apply set_state_children_keeps; auto.
  destruct (get_property node "captured-for"); auto.
Qed.

Lemma set_state_interpolation_minimal (src : MidiSource) (node : XMLNode) :
  interpolation_minimal src -> interpolation_minimal (set_state src node).1.
Proof.
  intros I. apply set_state_keeps; auto using set_interpolation_of_minimal.
  intros p v s M q t. rewrite set_automation_state_of_styles. apply M.
Qed.

Lemma set_state_automation_minimal (src : MidiSource) (node : XMLNode) :
  automation_minimal src -> automation_minimal (set_state src node).1.
Proof.
  intros A. apply set_state_keeps; auto using set_automation_state_of_minimal.
  intros p v s M q. rewrite set_interpolation_of_states. apply M.
Qed.

(** X5: [set_state] keeps the override maps minimal, for every node, also
    one on which it returns -1: after it no interpolation entry holds the
    default of its parameter and no automation entry holds Play, when that
    was so before. *)
Theorem set_state_keeps_maps_minimal (src : MidiSource) (node : XMLNode) :
  interpolation_minimal src -> automation_minimal src ->
  interpolation_minimal (set_state src node).1 /\
  automation_minimal (set_state src node).1.
Proof.
  intros I A. split.
  - by apply set_state_interpolation_minimal.
  - by apply set_state_automation_minimal.
Qed.

(** X6: [set_state] changes nothing of a source but its captured-for label,
    its two override maps and what it has sent out, to which it only adds:
    the name, the position, the length, the writing flag, the capture
    length, the model and the backend are as they were, for every node. *)
Theorem set_state_touches_only_metadata (src : MidiSource) (node : XMLNode) :
  same_recording (set_state src node).1 src /\
  emitted src `prefix_of` emitted (set_state src node).1.
Proof.
  split.
  - apply (set_state_keeps (fun s => same_recording s src)).
    + intros e s R. exact R.
    + intros p v s R. unfold set_interpolation_of.
      by destruct (decide (interpolation_of s p = v)).
    + intros p v s R. unfold set_automation_state_of.
      by destruct (decide (automation_state_of s p = v)).
    + intros v R. exact R.
    + by repeat split.
  - apply (set_state_keeps (fun s => emitted src `prefix_of` emitted s)).
    + intros e s R. simpl. by apply prefix_app_r.
    + intros p v s R. unfold set_interpolation_of.
      destruct (decide (interpolation_of s p = v)); [done|].
      simpl. by apply prefix_app_r.
    + intros p v s R. unfold set_automation_state_of.
      destruct (decide (automation_state_of s p = v)); [done|].
      simpl. by apply prefix_app_r.
    + intros v R. exact R.
    + done.
Qed.

End MoreStateProperties.

(** ** Serialization and deserialization *)

Lemma lookup_replace_property (ps : list (string * string)) (key value : string) :
  lookup_property (replace_property ps key value) key = Some value.
Proof.
  induction ps as [|[k v] ps IH]; simpl.
  - by rewrite decide_True.
  - destruct (decide (k = key)) as [E|N]; simpl.
    + by rewrite decide_True.
    + by rewrite decide_False.
Qed.

Lemma lookup_replace_property_ne (ps : list (string * string))
    (key key' value : string) :
  key' <> key ->
  lookup_property (replace_property ps key value) key'
  = lookup_property ps key'.
Proof.
  intros N. induction ps as [|[k v] ps IH]; simpl.
  - by rewrite decide_False.
  - destruct (decide (k = key)) as [->|N']; simpl.
    + by rewrite !decide_False.
    + destruct (decide (k = key')); [done|exact IH].
Qed.

Lemma fold_add_child {A} (f : A -> XMLNode) (l : list A) (n : XMLNode) :
  fold_left (fun n e => add_child n (f e)) l n
  = mkXMLNode (node_name n) (node_properties n) (node_children n ++ map f l).
Proof.
  revert n. induction l as [|e l IH]; intros n; simpl.
  - rewrite app_nil_r. by destruct n.
  - rewrite IH. simpl. by rewrite <- app_assoc.
Qed.

Section RoundTrip.

Context {registry : EventTypeMap} {convert : EnumConvert}
        {print : EnumPrint} {order : ParameterOrder}.

Lemma get_state_children (base : XMLNode) (src : MidiSource) :
  node_children (get_state base src)
  = node_children base
    ++ map interpolation_child (map_entries (_interpolation_style src))
    ++ map automation_child (map_entries (_automation_state src)).
Proof.
  unfold get_state. rewrite !fold_add_child. simpl.
  rewrite <- app_assoc. by destruct (String.length (_captured_for src) =? 0)%nat.
Qed.

Lemma get_state_captured_for (base : XMLNode) (src : MidiSource) :
  get_property (get_state base src) "captured-for"
  = if (String.length (_captured_for src) =? 0)%nat
    then get_property base "captured-for"
    else Some (_captured_for src).
Proof.
  unfold get_state. rewrite !fold_add_child. unfold get_property. simpl.
  destruct (String.length (_captured_for src) =? 0)%nat; [done|].
  simpl. apply lookup_replace_property.
Qed.

Lemma elem_of_map_entries {V} (m : gmap Evoral_Parameter V)
    (p : Evoral_Parameter) (v : V) :
  (p, v) ∈ map_entries m <-> m !! p = Some v.
Proof.
  unfold map_entries. rewrite merge_sort_Permutation.
  apply elem_of_map_to_list.
Qed.

Lemma NoDup_map_entries {V} (m : gmap Evoral_Parameter V) :
  NoDup (map_entries m).*1.
Proof.
  unfold map_entries. rewrite merge_sort_Permutation.
  apply NoDup_fst_map_to_list.
Qed.

(** The loop of [set_state] over children of other names does nothing. *)
Lemma set_state_children_foreign (src : MidiSource) (cs rest : list XMLNode) :
  Forall (fun c => node_name c <> "InterpolationStyle"
                   /\ node_name c <> "AutomationState") cs ->
  set_state_children src (cs ++ rest) = set_state_children src rest.
Proof.
  induction 1 as [|c cs [N1 N2] F IH]; [reflexivity|]. simpl.
  unfold set_state_child. by rewrite !decide_False.
Qed.

Lemma set_state_children_interpolation (src : MidiSource)
    (l : list (Evoral_Parameter * InterpolationStyle)) (rest : list XMLNode) :
  Forall (fun e => from_symbol (to_symbol e.1) = e.1
                   /\ automatable (ptype e.1) = true
                   /\ InterpolationStyle_to_string e.2 <> EmptyString
                   /\ string_to_InterpolationStyle
                        (InterpolationStyle_to_string e.2) = Some e.2) l ->
  set_state_children src (map interpolation_child l ++ rest)
  = set_state_children
      (fold_left (fun s e => set_interpolation_of s e.1 e.2) l src) rest.
Proof.
  intros F. revert src.
  induction F as [|[p s] l (S & A & Ne & Rs) F IH]; intros src; [reflexivity|].
  simpl in *. rewrite <- IH.
  unfold set_state_child at 1. simpl.
  unfold get_property. simpl. rewrite S.
  destruct (InterpolationStyle_to_string s) as [|a0 str] eqn:E; [done|].
  simpl. rewrite Rs. by destruct (ptype p).
Qed.

Lemma set_state_children_automation (src : MidiSource)
    (l : list (Evoral_Parameter * AutoState)) (rest : list XMLNode) :
  Forall (fun e => from_symbol (to_symbol e.1) = e.1
                   /\ AutoState_to_string e.2 <> EmptyString
                   /\ string_to_AutoState (AutoState_to_string e.2)
                      = Some e.2) l ->
  set_state_children src (map automation_child l ++ rest)
  = set_state_children
      (fold_left (fun s e => set_automation_state_of s e.1 e.2) l src) rest.
Proof.
  intros F. revert src.
  induction F as [|[p s] l (S & Ne & Rs) F IH]; intros src; [reflexivity|].
  simpl in *. rewrite <- IH.
  unfold set_state_child at 1. simpl.
  unfold get_property. simpl. rewrite S.
  destruct (AutoState_to_string s) as [|a0 str] eqn:E; [done|].
  simpl. by rewrite Rs.
Qed.

Lemma fold_set_interpolation_of_effective (src : MidiSource)
    (l : list (Evoral_Parameter * InterpolationStyle)) :
  NoDup l.*1 ->
  (forall q v, (q, v) ∈ l ->
     interpolation_of
       (fold_left (fun s e => set_interpolation_of s e.1 e.2) l src) q = v) /\
  (forall q, q ∉ l.*1 ->
     interpolation_of
       (fold_left (fun s e => set_interpolation_of s e.1 e.2) l src) q
     = interpolation_of src q).
Proof.
  revert src. induction l as [|[p s] l IH]; intros src N; simpl.
  - split; [intros q v I; by apply elem_of_nil in I|done].
  - apply NoDup_cons in N as [Np N].
    destruct (IH (set_interpolation_of src p s) N) as [IH1 IH2]. split.
    + intros q v I. apply elem_of_cons in I as [[= -> ->]|I]; [|by apply IH1].
      rewrite IH2 by exact Np. apply interpolation_of_set.
    + intros q Nq. apply not_elem_of_cons in Nq as [Nq1 Nq2].
      rewrite IH2 by exact Nq2. by apply interpolation_of_set_other.
Qed.

Lemma fold_set_automation_state_of_effective (src : MidiSource)
    (l : list (Evoral_Parameter * AutoState)) :
  NoDup l.*1 ->
  (forall q v, (q, v) ∈ l ->
     automation_state_of
       (fold_left (fun s e => set_automation_state_of s e.1 e.2) l src) q
     = v) /\
  (forall q, q ∉ l.*1 ->
     automation_state_of
       (fold_left (fun s e => set_automation_state_of s e.1 e.2) l src) q
     = automation_state_of src q).
Proof.
  revert src. induction l as [|[p s] l IH]; intros src N; simpl.
  - split; [intros q v I; by apply elem_of_nil in I|done].
  - apply NoDup_cons in N as [Np N].
    destruct (IH (set_automation_state_of src p s) N) as [IH1 IH2]. split.
    + intros q v I. apply elem_of_cons in I as [[= -> ->]|I]; [|by apply IH1].
      rewrite IH2 by exact Np. apply automation_state_of_set.
    + intros q Nq. apply not_elem_of_cons in Nq as [Nq1 Nq2].
      rewrite IH2 by exact Nq2. by apply automation_state_of_set_other.
Qed.

Lemma fold_set_interpolation_of_keeps (P : MidiSource -> Prop)
    (src : MidiSource) (l : list (Evoral_Parameter * InterpolationStyle)) :
  (forall p v s, P s -> P (set_interpolation_of s p v)) ->
  P src -> P (fold_left (fun s e => set_interpolation_of s e.1 e.2) l src).
Proof.
  intros K. revert src. induction l as [|e l IH]; intros src Hs; simpl; auto.
Qed.

Lemma fold_set_automation_state_of_keeps (P : MidiSource -> Prop)
    (src : MidiSource) (l : list (Evoral_Parameter * AutoState)) :
  (forall p v s, P s -> P (set_automation_state_of s p v)) ->
  P src -> P (fold_left (fun s e => set_automation_state_of s e.1 e.2) l src).
Proof.
  intros K. revert src. induction l as [|e l IH]; intros src Hs; simpl; auto.
Qed.

Lemma set_state_get_state (base : XMLNode) (src dst : MidiSource) :
  readable_state base src ->
  set_state dst (get_state base src)
  = (fold_left (fun s e => set_automation_state_of s e.1 e.2)
       (map_entries (_automation_state src))
       (fold_left (fun s e => set_interpolation_of s e.1 e.2)
          (map_entries (_interpolation_style src))
          (with_label_of base src dst)),
     0).
Proof.
  intros (Si & Sa & F). unfold set_state.
  rewrite get_state_captured_for, get_state_children.
  fold (with_label_of base src dst).
  rewrite set_state_children_foreign by exact F.
  rewrite set_state_children_interpolation.
  - rewrite <- (app_nil_r (map automation_child _)).
    rewrite set_state_children_automation; [reflexivity|].
    apply Forall_forall. intros [p a] I. apply elem_of_map_entries in I.
    by apply (Sa p a).
  - apply Forall_forall. intros [p s] I. apply elem_of_map_entries in I.
    by apply (Si p s).
Qed.

Lemma loaded_values_in_effect (base : XMLNode) (src dst : MidiSource) :
  readable_state base src ->
  _interpolation_style dst = ∅ -> _automation_state dst = ∅ ->
  forall q,
    interpolation_of (set_state dst (get_state base src)).1 q
    = interpolation_of src q /\
    automation_state_of (set_state dst (get_state base src)).1 q
    = automation_state_of src q.
Proof.
  intros Rd Ei Ea q. rewrite set_state_get_state by exact Rd. simpl.
  assert (_interpolation_style (with_label_of base src dst) = ∅
          /\ _automation_state (with_label_of base src dst) = ∅) as [Ei' Ea'].
  { unfold with_label_of.
    by destruct (if (String.length (_captured_for src) =? 0)%nat
                 then get_property base "captured-for"
                 else Some (_captured_for src)). }
  split.
  - etransitivity.
    { apply (fold_set_automation_state_of_keeps
               (fun s => interpolation_of s q = _)); [|reflexivity].
      intros p v s E. unfold interpolation_of.
      rewrite set_automation_state_of_styles. exact E. }
    destruct (fold_set_interpolation_of_effective
                (with_label_of base src dst)
                (map_entries (_interpolation_style src))
                (NoDup_map_entries _)) as [In Out].
    unfold interpolation_of at 2.
    destruct (_interpolation_style src !! q) as [v|] eqn:L.
    + apply In. by apply elem_of_map_entries.
    + rewrite Out.
      * unfold interpolation_of. by rewrite Ei', lookup_empty.
      * intros I. apply list_elem_of_fmap in I as ([q' v] & -> & I).
        apply elem_of_map_entries in I. simpl in L. congruence.
  - destruct (fold_set_automation_state_of_effective
                (fold_left (fun s e => set_interpolation_of s e.1 e.2)
                   (map_entries (_interpolation_style src))
                   (with_label_of base src dst))
                (map_entries (_automation_state src))
                (NoDup_map_entries _)) as [In Out].
    unfold automation_state_of at 2.
    destruct (_automation_state src !! q) as [v|] eqn:L.
    + apply In. by apply elem_of_map_entries.
    + rewrite Out.
      * apply (fold_set_interpolation_of_keeps
                 (fun s => automation_state_of s q = Play)).
        -- intros p v s E. unfold automation_state_of.
           rewrite set_interpolation_of_states. exact E.
        -- unfold automation_state_of. by rewrite Ea', lookup_empty.
      * intros I. apply list_elem_of_fmap in I as ([q' v] & -> & I).
        apply elem_of_map_entries in I. simpl in L. congruence.
Qed.

(** X7: a state that can be read back is read back in full.  When the maps
    of a source are minimal, [set_state] on the node [get_state] made of it,
    into a source without overrides, returns 0 and leaves in that source the
    two maps of the first, with no entry for a parameter at its default; a
    captured-for label that is not empty is restored too. *)
Theorem get_state_set_state_round_trip (base : XMLNode) (src dst : MidiSource) :
  readable_state base src ->
  _interpolation_style dst = ∅ -> _automation_state dst = ∅ ->
  interpolation_minimal src -> automation_minimal src ->
  (set_state dst (get_state base src)).2 = 0 /\
  _interpolation_style (set_state dst (get_state base src)).1
  = _interpolation_style src /\
  _automation_state (set_state dst (get_state base src)).1
  = _automation_state src /\
  (_captured_for src <> EmptyString ->
   _captured_for (set_state dst (get_state base src)).1 = _captured_for src).
Proof.
  intros Rd Ei Ea Mi Ma.
  split; [by rewrite set_state_get_state|].
  split; [|split].
  - apply minimal_styles_determined; [|exact Mi|].
    + apply set_state_interpolation_minimal.
      intros p s. rewrite Ei, lookup_empty. discriminate.
    + intros q. by apply loaded_values_in_effect.
  - apply minimal_states_determined; [|exact Ma|].
    + apply set_state_automation_minimal.
      intros p. by rewrite Ea, lookup_empty.
    + intros q. by apply loaded_values_in_effect.
  - intros Ne. unfold set_state. rewrite get_state_captured_for.
    destruct (_captured_for src) as [|c0 cf] eqn:E; [done|]. simpl.
    apply (set_state_children_keeps
             (fun s => _captured_for s = String c0 cf)); try done.
    + intros p v s K. unfold set_interpolation_of.
      by destruct (decide (interpolation_of s p = v)).
    + intros p v s K. unfold set_automation_state_of.
      by destruct (decide (automation_state_of s p = v)).
Qed.

(** X8: without the minimality of the maps, the values in effect are still
    read back: after [set_state] on the node [get_state] made of a source,
    into a source without overrides, every parameter has the interpolation
    and the automation state it has in the first source. *)
Theorem get_state_set_state_values_in_effect
    (base : XMLNode) (src dst : MidiSource) (q : Evoral_Parameter) :
  readable_state base src ->
  _interpolation_style dst = ∅ -> _automation_state dst = ∅ ->
  interpolation_of (set_state dst (get_state base src)).1 q
  = interpolation_of src q /\
  automation_state_of (set_state dst (get_state base src)).1 q
  = automation_state_of src q.
Proof. intros Rd Ei Ea. by apply loaded_values_in_effect. Qed.

End RoundTrip.

(** ** Write completion and runs of writes *)

Section CaptureProperties.

Context {registry : EventTypeMap} {sequence : Sequence} {temporal : Temporal}
        {storage : Storage}.






Lemma midi_write_transport_rolling (src : MidiSource) (r : WriteRequest) :
  transport_rolling (midi_write src r.1.1 r.1.2 r.2).1 = transport_rolling src.
Proof.
  unfold midi_write. simpl.
  by destruct (decide (r.2 = timecnt_max (time_domain r.2))).
Qed.

Lemma requested_samples_nonneg (reqs : list WriteRequest) :
  Forall (fun r : WriteRequest => r.2 <> timecnt_max (time_domain r.2) ->
                   0 <= timecnt_samples r.2) reqs ->
  0 <= requested_samples reqs.
Proof.
  induction 1 as [|r reqs P F IH]; simpl; [done|].
  destruct (decide (r.2 = timecnt_max (time_domain r.2))); [lia|].
  specialize (P n). lia.
Qed.

(** X10: over a run of streamed writes whose bounded counts are not
    negative, from a capture length in the range of the counter, and whose
    total fits the counter: the capture length ends as the one at the start
    plus the samples of all the bounded counts requested, it never is below
    the one at the start, and the run emits one Invalidated for each write
    with the sentinel and nothing else. *)
Theorem capture_length_after_writes (src : MidiSource) (reqs : list WriteRequest) :
  Forall (fun r : WriteRequest => r.2 <> timecnt_max (time_domain r.2) ->
                   0 <= timecnt_samples r.2) reqs ->
  in_s64 (_capture_length src) ->
  in_s64 (_capture_length src + requested_samples reqs) ->
  _capture_length (midi_writes src reqs)
  = _capture_length src + requested_samples reqs /\
  _capture_length src <= _capture_length (midi_writes src reqs) /\
  emitted (midi_writes src reqs)
  = emitted src
    ++ map (fun _ => Invalidated (transport_rolling src))
           (sentinel_requests reqs).
Proof.
  intros F. revert src.
  induction F as [|r reqs P F IH]; intros src R0 R; simpl in *.
  - rewrite app_nil_r. split; [lia|]. split; [lia|reflexivity].
  - pose proof (requested_samples_nonneg reqs F) as Pos.
    pose proof (midi_write_transport_rolling src r) as T.
    unfold sentinel_requests. unfold midi_writes in *. simpl.
    unfold in_s64 in *.
    destruct (decide (r.2 = timecnt_max (time_domain r.2))) as [E|N].
    + rewrite filter_cons_True by exact E.
      destruct (IH (midi_write src r.1.1 r.1.2 r.2).1) as (C & M & Em);
        unfold midi_write in *; simpl in *;
        rewrite ?decide_True in * by exact E; simpl in *; try lia.
      split; [lia|]. split; [lia|].
      rewrite Em. by rewrite <- app_assoc.
    + rewrite filter_cons_False by exact N. specialize (P N).
      destruct (IH (midi_write src r.1.1 r.1.2 r.2).1) as (C & M & Em);
        unfold midi_write in *; simpl in *;
        rewrite ?decide_False in * by exact N; simpl in *;
        rewrite ?wrap_s64_in_range in * by (unfold in_s64; lia);
        try (unfold in_s64; lia).
      split; [lia|]. split; [lia|exact Em].
Qed.

End CaptureProperties.

(** ** The window of a modeled read *)

Section WindowProperties.

Context {temporal : Temporal} {sequence : Sequence} {storage : Storage}.

Lemma read_loop_window
    (source_start_beats session_source_start end_beats : Beats)
    (loop_range : option Range) (filter : option MidiChannelFilter)
    (pend : list Event) (dst : list SinkWrite)
    (tracker : option MidiNoteTracker) :
  read_loop source_start_beats session_source_start end_beats loop_range
            filter pend dst tracker
  = (events_left source_start_beats session_source_start end_beats pend,
     dst ++ omap (sink_write_of source_start_beats loop_range filter)
                 (events_in_window source_start_beats session_source_start
                                   end_beats pend),
     (fun t => t ++ events_in_window source_start_beats session_source_start
                                     end_beats pend) <$> tracker).
Proof.
  unfold events_in_window.
  revert dst tracker. induction pend as [|ev pend IH]; intros dst tracker.
  - simpl. rewrite app_nil_r. destruct tracker; simpl; [|done].
    by rewrite app_nil_r.
  - simpl. unfold past_window.
    destruct (source_start_beats + time ev <? session_source_start) eqn:Early.
    + simpl. rewrite IH. apply Z.ltb_lt in Early.
      rewrite filter_cons_False by lia. reflexivity.
    + simpl. destruct (end_beats <=? source_start_beats + time ev) eqn:Past.
      * simpl. rewrite app_nil_r. destruct tracker; simpl; [|done].
        by rewrite app_nil_r.
      * apply Z.ltb_ge in Early. rewrite filter_cons_True by lia.
        rewrite IH. simpl. f_equal; [f_equal|].
        -- unfold sink_write_of.
           destruct filter as [f|]; [|by rewrite <- app_assoc].
           destruct (is_channel_event (status_of ev));
             [|by rewrite <- app_assoc].
           destruct (f (buffer ev)).1; simpl; [done|by rewrite <- app_assoc].
        -- destruct tracker; simpl; [|done]. by rewrite <- app_assoc.
Qed.

Lemma events_in_window_bounds
    (source_start_beats session_source_start end_beats : Beats)
    (pend : list Event) :
  Forall (fun ev => session_source_start <= source_start_beats + time ev
                    < end_beats)
         (events_in_window source_start_beats session_source_start end_beats
                           pend).
Proof.
  unfold events_in_window. induction pend as [|ev pend IH]; simpl.
  - constructor.
  - unfold past_window.
    destruct (source_start_beats + time ev <? session_source_start) eqn:Early;
      simpl.
    + apply Z.ltb_lt in Early. by rewrite filter_cons_False by lia.
    + apply Z.ltb_ge in Early.
      destruct (end_beats <=? source_start_beats + time ev) eqn:Past;
        [constructor|].
      apply Z.leb_gt in Past. rewrite filter_cons_True by lia.
      constructor; [lia|exact IH].
Qed.

(** X11: a modeled read adds to the sink, after what it held and in the
    order of the iterator, what the events of the window give: the events
    from the iterator, up to the first one that is not too early and is at or
    past the end, that are not too early; each of them is at or after the
    start of the window and before its end.  The tracker is given all of
    them, those the channel filter rejects too; the iterator is left at the
    event that stopped the loop; and the read returns the count it was asked
    for. *)
Theorem modeled_read_window
    (src : MidiSource) (m : MidiModel) (dst : list SinkWrite)
    (source_start start : timepos_t) (cnt : timecnt_t)
    (loop_range : option Range) (cursor : MidiCursor)
    (tracker : option MidiNoteTracker) (filter : option MidiChannelFilter)
    (filtered : list Evoral_Parameter) :
  _model src = Some m ->
  let pend := pending (iter (prepare_cursor m cursor start cnt filtered)) in
  let ssb := timepos_beats source_start in
  let s := timepos_beats (timepos_plus source_start start) in
  let e := ssb + timepos_beats start + timecnt_beats cnt in
  let r := midi_read src dst source_start start cnt loop_range cursor tracker
                     filter filtered in
  rr_dst r = dst ++ omap (sink_write_of ssb loop_range filter)
                         (events_in_window ssb s e pend) /\
  rr_tracker r = (fun t => t ++ events_in_window ssb s e pend) <$> tracker /\
  pending (iter (rr_cursor r)) = events_left ssb s e pend /\
  Forall (fun ev => s <= ssb + time ev < e) (events_in_window ssb s e pend) /\
  rr_ret r = cnt.
Proof.
  intros M. cbv zeta. unfold midi_read, read_window. rewrite M. simpl.
  rewrite read_loop_window. simpl.
  repeat split. apply events_in_window_bounds.
Qed.

(** When the pending events are in the order of their time, every later
    event is at or after the first. *)
Lemma time_ordered_cons (ev : Event) (pend : list Event) :
  time_ordered (ev :: pend) ->
  time_ordered pend /\ Forall (fun ev' => time ev <= time ev') pend.
Proof. intros S. by apply StronglySorted_inv in S. Qed.

Lemma filter_none {A} (P : A -> Prop) `{forall x, Decision (P x)}
    (l : list A) :
  Forall (fun x => ~ P x) l -> filter P l = [].
Proof.
  induction 1 as [|x l N F IH]; [reflexivity|].
  by rewrite filter_cons_False.
Qed.

Lemma events_in_window_all
    (source_start_beats session_source_start end_beats : Beats)
    (pend : list Event) :
  time_ordered pend ->
  events_in_window source_start_beats session_source_start end_beats pend
  = filter (fun ev => session_source_start <= source_start_beats + time ev
                      < end_beats) pend.
Proof.
  unfold events_in_window. induction pend as [|ev pend IH]; intros S;
    [reflexivity|].
  apply time_ordered_cons in S as [S L]. simpl. unfold past_window.
  destruct (source_start_beats + time ev <? session_source_start) eqn:Early;
    simpl.
  - apply Z.ltb_lt in Early.
    rewrite !filter_cons_False by lia. by apply IH.
  - apply Z.ltb_ge in Early.
    destruct (end_beats <=? source_start_beats + time ev) eqn:Past.
    + apply Z.leb_le in Past. rewrite filter_nil, filter_cons_False by lia.
      symmetry. apply filter_none.
      eapply Forall_impl; [exact L|]. simpl. intros ev' T. lia.
    + apply Z.leb_gt in Past. rewrite !filter_cons_True by lia.
      f_equal. by apply IH.
Qed.

(** X12: when the events of the iterator are in the order of their time, a
    modeled read writes for ALL the events of the iterator that lie in the
    window, at or after its start and before its end, none is missed behind
    the event that stops the loop. *)
Theorem modeled_read_misses_no_event
    (src : MidiSource) (m : MidiModel) (dst : list SinkWrite)
    (source_start start : timepos_t) (cnt : timecnt_t)
    (loop_range : option Range) (cursor : MidiCursor)
    (tracker : option MidiNoteTracker)
    (channel_filter : option MidiChannelFilter)
    (filtered : list Evoral_Parameter) :
  _model src = Some m ->
  time_ordered (pending (iter (prepare_cursor m cursor start cnt filtered))) ->
  rr_dst (midi_read src dst source_start start cnt loop_range cursor tracker
                    channel_filter filtered)
  = dst
    ++ omap (sink_write_of (timepos_beats source_start) loop_range channel_filter)
         (filter
            (fun ev => timepos_beats (timepos_plus source_start start)
                       <= timepos_beats source_start + time ev
                       < timepos_beats source_start + timepos_beats start
                         + timecnt_beats cnt)
            (pending (iter (prepare_cursor m cursor start cnt filtered)))).
Proof.
  intros M S. unfold midi_read, read_window. rewrite M. simpl.
  rewrite read_loop_window. simpl. by rewrite events_in_window_all.
Qed.

Lemma read_loop_start_irrelevant
    (source_start_beats a b end_beats : Beats)
    (loop_range : option Range) (channel_filter : option MidiChannelFilter)
    (pend : list Event) (dst : list SinkWrite)
    (tracker : option MidiNoteTracker) :
  Forall (fun ev => a <= source_start_beats + time ev
                    /\ b <= source_start_beats + time ev) pend ->
  read_loop source_start_beats a end_beats loop_range channel_filter pend dst
            tracker
  = read_loop source_start_beats b end_beats loop_range channel_filter pend
              dst tracker.
Proof.
  intros F. revert dst tracker.
  induction F as [|ev pend [Ha Hb] F IH]; intros dst tracker; [reflexivity|].
  simpl.
  destruct (source_start_beats + time ev <? a) eqn:Ea;
    [apply Z.ltb_lt in Ea; lia|].
  destruct (source_start_beats + time ev <? b) eqn:Eb;
    [apply Z.ltb_lt in Eb; lia|].
  destruct (end_beats <=? source_start_beats + time ev); [reflexivity|].
  apply IH.
Qed.

(** Two loops over adjoining windows, the second from where the first
    stopped, do what one loop over both windows does. *)
Lemma read_loop_sequential
    (source_start_beats s1 e1 e2 : Beats)
    (loop_range : option Range) (channel_filter : option MidiChannelFilter)
    (pend : list Event) (dst : list SinkWrite)
    (tracker : option MidiNoteTracker) :
  time_ordered pend -> e1 <= e2 ->
  read_loop source_start_beats e1 e2 loop_range channel_filter
    (read_loop source_start_beats s1 e1 loop_range channel_filter pend dst
               tracker).1.1
    (read_loop source_start_beats s1 e1 loop_range channel_filter pend dst
               tracker).1.2
    (read_loop source_start_beats s1 e1 loop_range channel_filter pend dst
               tracker).2
  = read_loop source_start_beats s1 e2 loop_range channel_filter pend dst
              tracker.
Proof.
  intros S Le. revert dst tracker.
  induction pend as [|ev pend IH]; intros dst tracker; [reflexivity|].
  apply time_ordered_cons in S as [S L]. simpl.
  destruct (source_start_beats + time ev <? s1) eqn:Early; [by apply IH|].
  apply Z.ltb_ge in Early.
  destruct (e1 <=? source_start_beats + time ev) eqn:Past1.
  - apply Z.leb_le in Past1. simpl.
    destruct (source_start_beats + time ev <? e1) eqn:E;
      [apply Z.ltb_lt in E; lia|].
    destruct (e2 <=? source_start_beats + time ev); [reflexivity|].
    apply read_loop_start_irrelevant.
    eapply Forall_impl; [exact L|]. simpl. intros ev' T. lia.
  - apply Z.leb_gt in Past1.
    destruct (e2 <=? source_start_beats + time ev) eqn:Past2;
      [apply Z.leb_le in Past2; lia|].
    by apply IH.
Qed.

(** X13: two modeled reads in a row, the second starting where the first
    ended, with the cursor, the sink and the tracker the first left, write
    what one pass over both windows writes: no event of the iterator is
    written twice and none between the windows is lost, and the second read
    makes no search.  This needs the events of the iterator in the order of
    their time, a valid iterator, an end of the first read that is not
    position zero (a cursor whose last read ended at zero is searched
    afresh), and windows that adjoin in beats. *)
Theorem sequential_reads_compose
    (src : MidiSource) (m : MidiModel) (dst : list SinkWrite)
    (source_start start : timepos_t) (cnt1 cnt2 : timecnt_t)
    (loop_range : option Range) (cursor : MidiCursor)
    (tracker : option MidiNoteTracker)
    (channel_filter : option MidiChannelFilter)
    (filtered filtered2 : list Evoral_Parameter) :
  _model src = Some m ->
  time_ordered (pending (iter (prepare_cursor m cursor start cnt1 filtered))) ->
  valid (iter (prepare_cursor m cursor start cnt1 filtered)) = true ->
  timepos_add start cnt1 <> 0 ->
  timepos_beats (timepos_plus source_start (timepos_add start cnt1))
  = timepos_beats source_start + timepos_beats start + timecnt_beats cnt1 ->
  timepos_beats source_start + timepos_beats start + timecnt_beats cnt1
  <= timepos_beats source_start + timepos_beats (timepos_add start cnt1)
     + timecnt_beats cnt2 ->
  let pend := pending (iter (prepare_cursor m cursor start cnt1 filtered)) in
  let ssb := timepos_beats source_start in
  let s1 := timepos_beats (timepos_plus source_start start) in
  let e2 := ssb + timepos_beats (timepos_add start cnt1) + timecnt_beats cnt2 in
  let r1 := midi_read src dst source_start start cnt1 loop_range cursor
                      tracker channel_filter filtered in
  let r2 := midi_read src (rr_dst r1) source_start (timepos_add start cnt1)
                      cnt2 loop_range (rr_cursor r1) (rr_tracker r1)
                      channel_filter filtered2 in
  rr_dst r2 = dst ++ omap (sink_write_of ssb loop_range channel_filter)
                          (events_in_window ssb s1 e2 pend) /\
  rr_tracker r2 = (fun t => t ++ events_in_window ssb s1 e2 pend) <$> tracker /\
  pending (iter (rr_cursor r2)) = events_left ssb s1 e2 pend /\
  active_notes (rr_cursor r2)
  = active_notes (prepare_cursor m cursor start cnt1 filtered).
Proof.
  intros M S V Nz Adj Le. cbv zeta. unfold midi_read. rewrite M.
  remember (prepare_cursor m cursor start cnt1 filtered) as c1 eqn:Hc.
  assert (last_read_end c1 = timepos_add start cnt1) as L
    by (rewrite Hc; reflexivity).
  clear Hc.
  assert (prepare_cursor m
            (rr_cursor (read_window dst source_start start cnt1 loop_range c1
                                    tracker channel_filter))
            (timepos_add start cnt1) cnt2 filtered2
          = mkCursor
              (iter (rr_cursor (read_window dst source_start start cnt1
                                  loop_range c1 tracker channel_filter)))
              (active_notes c1)
              (timepos_add (timepos_add start cnt1) cnt2) (connected c1)) as P.
  { unfold prepare_cursor, needs_search, linear_read. simpl.
    rewrite L, V, Z.eqb_refl.
    apply Z.eqb_neq in Nz. by rewrite Nz. }
  rewrite P. unfold read_window. simpl. rewrite Adj.
  rewrite read_loop_sequential by done.
  rewrite read_loop_window. simpl. by repeat split.
Qed.

End WindowProperties.

(** ** The properties above on the example instances *)

Lemma unmodeled_source_interpolation_minimal :
  @interpolation_minimal example_registry unmodeled_source.
Proof.
  intros p s L. simpl in L.
  apply lookup_singleton_Some in L as [<- <-]. discriminate.
Qed.

Lemma unmodeled_source_automation_minimal :
  automation_minimal unmodeled_source.
Proof.
  intros p L. simpl in L.
  apply lookup_singleton_Some in L as [_ L]. discriminate.
Qed.

Lemma unmodeled_source_readable :
  @readable_state example_registry example_convert example_print base_node
                  unmodeled_source.
Proof.
  split; [|split].
  - intros p s L. simpl in L.
    apply lookup_singleton_Some in L as [<- <-]. by repeat split.
  - intros p s L. simpl in L.
    apply lookup_singleton_Some in L as [<- <-]. by repeat split.
  - constructor.
Qed.

Lemma example_model_time_ordered :
  time_ordered
    (pending (iter (@prepare_cursor example_temporal example_sequence
                      example_model fresh_cursor 0 (mkCnt BeatTime 1) []))).
Proof.
  simpl. unfold time_ordered.
  repeat (constructor; simpl; try lia).
Qed.

Lemma setter_last_call_wins_witness :
  _interpolation_style
    (@set_interpolation_of example_registry
       (@set_interpolation_of example_registry unmodeled_source cc_volume
          Linear) cc_volume Discrete)
  = _interpolation_style unmodeled_source.
Proof.
  apply (proj1 (@setter_last_call_wins example_registry unmodeled_source
                  cc_volume Linear Discrete Play Off
                  unmodeled_source_interpolation_minimal
                  unmodeled_source_automation_minimal)).
Defined.

Lemma set_state_keeps_maps_minimal_witness :
  @interpolation_minimal example_registry
    (@set_state example_registry example_convert unmodeled_source
       (source_node [legacy_style_child; child_without_parameter])).1.
Proof.
  apply (proj1 (@set_state_keeps_maps_minimal example_registry example_convert
                  unmodeled_source
                  (source_node [legacy_style_child; child_without_parameter])
                  unmodeled_source_interpolation_minimal
                  unmodeled_source_automation_minimal)).
Defined.

Lemma get_state_set_state_round_trip_witness :
  let loaded :=
    (@set_state example_registry example_convert target_source
       (@get_state example_registry example_print example_order base_node
                   unmodeled_source)).1 in
  _interpolation_style loaded = {[ cc_volume := Discrete ]} /\
  _automation_state loaded = {[ cc_volume := Off ]}.
Proof.
  destruct (@get_state_set_state_round_trip example_registry example_convert
              example_print example_order base_node unmodeled_source
              target_source unmodeled_source_readable eq_refl eq_refl
              unmodeled_source_interpolation_minimal
              unmodeled_source_automation_minimal)
    as (_ & I & A & _).
  split; [exact I|exact A].
Defined.

Lemma get_state_set_state_values_in_effect_witness :
  @interpolation_of example_registry
    (@set_state example_registry example_convert target_source
       (@get_state example_registry example_print example_order base_node
                   unmodeled_source)).1 cc_volume = Discrete.
Proof.
  apply (proj1 (@get_state_set_state_values_in_effect example_registry
                  example_convert example_print example_order base_node
                  unmodeled_source target_source cc_volume
                  unmodeled_source_readable eq_refl eq_refl)).
Defined.

Lemma capture_length_after_writes_witness :
  _capture_length
    (@midi_writes example_temporal example_storage fresh_source
                  example_requests) = 384.
Proof.
  apply (proj1 (@capture_length_after_writes example_temporal example_storage
                  fresh_source example_requests
                  ltac:(repeat constructor; simpl; lia)
                  ltac:(unfold in_s64; simpl; lia)
                  ltac:(unfold in_s64; vm_compute; split; [discriminate|reflexivity]))).
Defined.

Lemma modeled_read_window_witness :
  rr_dst (@midi_read example_temporal example_sequence example_storage
            modeled_source [] 0 1 (mkCnt BeatTime 1) None fresh_cursor None
            None [])
  = [mkSinkWrite 1 1 3 [xe1; x00; x40]].
Proof.
  apply (proj1 (@modeled_read_window example_temporal example_sequence
                  example_storage modeled_source example_model [] 0 1
                  (mkCnt BeatTime 1) None fresh_cursor None None [] eq_refl)).
Defined.

Lemma modeled_read_misses_no_event_witness :
  rr_dst (@midi_read example_temporal example_sequence example_storage
            modeled_source [] 0 0 (mkCnt BeatTime 1) None fresh_cursor None
            None [])
  = [mkSinkWrite 0 1 3 [x90; x3c; x64]].
Proof.
  apply (@modeled_read_misses_no_event example_temporal example_sequence
           example_storage modeled_source example_model [] 0 0
           (mkCnt BeatTime 1) None fresh_cursor None None [] eq_refl
           example_model_time_ordered).
Defined.

Lemma sequential_reads_compose_witness :
  let r1 := @midi_read example_temporal example_sequence example_storage
              modeled_source [] 0 0 (mkCnt BeatTime 1) None fresh_cursor None
              None [] in
  rr_dst (@midi_read example_temporal example_sequence example_storage
            modeled_source (rr_dst r1) 0 1 (mkCnt BeatTime 2) None
            (rr_cursor r1) (rr_tracker r1) None [])
  = [mkSinkWrite 0 1 3 [x90; x3c; x64]; mkSinkWrite 1 1 3 [xe1; x00; x40];
     mkSinkWrite 2 1 3 [x80; x3c; x00]].
Proof.
  apply (proj1 (@sequential_reads_compose example_temporal example_sequence
                  example_storage modeled_source example_model [] 0 0
                  (mkCnt BeatTime 1) (mkCnt BeatTime 2) None fresh_cursor None
                  None [] [] eq_refl example_model_time_ordered eq_refl
                  ltac:(discriminate) eq_refl ltac:(simpl; lia))).
Defined.
